(** * InteractableCanvas: viewport transform, bounds, hit test, render pass
      and pointer state machine

    A shallow embedding of [InteractableCanvas.js] (the React component that
    pans, zooms and drags on a 2D canvas).

    Numbers.  JavaScript numbers are modelled as exact rationals [Q]; IEEE
    rounding, infinities and NaN are outside the model.  The only place where
    the source can leave the finite numbers from finite inputs is the division
    [1 / transform.a] in [getTransformedPoint]; the embedding returns [None]
    there, so that no statement silently depends on a convention for [1 / 0].

    Platform.  The canvas context is reduced to its current transformation
    matrix (a [DOMMatrix] with fields [a] .. [f]) and the three methods the
    component calls on it: [translate], [scale] and [setTransform].  Drawing
    calls are recorded as a trace of events. *)

From Stdlib Require Import QArith Qminmax Qround Qfield.
From Stdlib Require Import ZArith List Bool String Lia Lqa.
Import ListNotations.

Local Open Scope Q_scope.

(** ** Points and matrices *)

Module Point.
Record t : Set := mk { x : Q; y : Q }.

(** Equality of points up to the representation of the rationals. *)
Definition equiv (p q : t) : Prop := x p == x q /\ y p == y q.
End Point.

Module DOMMatrix.
(** [a]: horizontal scaling, [b]: vertical skewing, [c]: horizontal skewing,
    [d]: vertical scaling, [e]: horizontal translation, [f]: vertical
    translation. *)
Record t : Set := mk { a : Q; b : Q; c : Q; d : Q; e : Q; f : Q }.

Definition identity : t := mk 1 0 0 1 0 0.
End DOMMatrix.

Module Rect.
(** The part of [canvas.getBoundingClientRect()] that the component reads. *)
Record t : Set := mk { width : Q; height : Q }.

(** A bounding client rect never has a negative extent. *)
Definition native (r : t) : Prop := 0 <= width r /\ 0 <= height r.
End Rect.

(** ** The canvas context: current transformation matrix *)

Module Ctx.
Import DOMMatrix.

(** [ctx.translate(tx, ty)]: the current matrix times a translation. *)
Definition translate (m : DOMMatrix.t) (tx ty : Q) : DOMMatrix.t :=
  mk (a m) (b m) (c m) (d m)
     (a m * tx + c m * ty + e m)
     (b m * tx + d m * ty + f m).

(** [ctx.scale(sx, sy)]: the current matrix times a scaling. *)
Definition scale (m : DOMMatrix.t) (sx sy : Q) : DOMMatrix.t :=
  mk (a m * sx) (b m * sx) (c m * sy) (d m * sy) (e m) (f m).

(** [ctx.setTransform(a, b, c, d, e, f)]: whole replacement. *)
Definition setTransform (a b c d e f : Q) : DOMMatrix.t := mk a b c d e f.
End Ctx.

Section Canvas.

(** [window.devicePixelRatio], read once when the module is loaded. *)
Variable devicePixelRatio : Q.

(** [const DEFAULT_SCALING = Math.max(2, window.devicePixelRatio)] *)
Definition DEFAULT_SCALING : Q := Qmax 2 devicePixelRatio.

(** [scaleCanvas]: the backing store size in device pixels and the
    transform after [ctx.scale(DEFAULT_SCALING, DEFAULT_SCALING)] on a
    fresh context. *)
Definition scaleCanvas (rect : Rect.t) : Z * Z * DOMMatrix.t :=
  (Qfloor (Rect.width rect * DEFAULT_SCALING),
   Qfloor (Rect.height rect * DEFAULT_SCALING),
   Ctx.scale DOMMatrix.identity DEFAULT_SCALING DEFAULT_SCALING).

(** [getTransformedPoint(ctx, x, y)].  [None] stands for the non-finite
    result that JavaScript produces when [transform.a] is zero. *)
Definition getTransformedPoint (transform : DOMMatrix.t) (x y : Q)
  : option Point.t :=
  if Qeq_bool (DOMMatrix.a transform) 0 then None
  else
    let inverseZoom := 1 / DOMMatrix.a transform in
    let transformedX := inverseZoom * x in
    let transformedX := transformedX * DEFAULT_SCALING in
    let transformedX := transformedX - inverseZoom * DOMMatrix.e transform in
    let transformedY := inverseZoom * y in
    let transformedY := transformedY * DEFAULT_SCALING in
    let transformedY := transformedY - inverseZoom * DOMMatrix.f transform in
    Some (Point.mk transformedX transformedY).

(** [enforceBounds(canvas, ctx)]: reads the matrix, clamps a copy field by
    field in the order of the source, and writes it back. *)
Definition enforceBounds (rect : Rect.t) (ctx : DOMMatrix.t) : DOMMatrix.t :=
  let transform := ctx in
  let a := if Qlt_le_dec (DOMMatrix.a transform) 1 then 1
           else DOMMatrix.a transform in
  let d := if Qlt_le_dec (DOMMatrix.d transform) 1 then 1
           else DOMMatrix.d transform in
  let scaledWidth := Rect.width rect * a in
  let scaledHeight := Rect.height rect * d in
  let maxHorizontalTranslation :=
    - (scaledWidth - Rect.width rect) * DEFAULT_SCALING in
  let maxVerticalTranslation :=
    - (scaledHeight - Rect.height rect) * DEFAULT_SCALING in
  let e := if Qlt_le_dec 0 (DOMMatrix.e transform) then 0
           else DOMMatrix.e transform in
  let e := if Qlt_le_dec e maxHorizontalTranslation
           then maxHorizontalTranslation else e in
  let f := if Qlt_le_dec 0 (DOMMatrix.f transform) then 0
           else DOMMatrix.f transform in
  let f := if Qlt_le_dec f maxVerticalTranslation
           then maxVerticalTranslation else f in
  Ctx.setTransform a (DOMMatrix.b transform) (DOMMatrix.c transform) d e f.

(** The three calls of the wheel handler, in the order of the source:
    [ctx.translate(pt.x, pt.y); ctx.scale(zoom, zoom);
     ctx.translate(-pt.x, -pt.y)]. *)
Definition zoomAbout (ctx : DOMMatrix.t) (pt : Point.t) (zoom : Q)
  : DOMMatrix.t :=
  let ctx := Ctx.translate ctx (Point.x pt) (Point.y pt) in
  let ctx := Ctx.scale ctx zoom zoom in
  Ctx.translate ctx (- Point.x pt) (- Point.y pt).

End Canvas.


(** ** The clamps of the bounds enforcer, by name *)

(** The most negative translation that [enforceBounds] allows for a given
    extent and (already clamped) scale. *)
Definition maxTranslation (dpr extent scale : Q) : Q :=
  - (extent * scale - extent) * DEFAULT_SCALING dpr.

(** The two clamps of the source, one after the other. *)
Definition clampScale (s : Q) : Q := if Qlt_le_dec s 1 then 1 else s.

Definition clampTranslation (t bound : Q) : Q :=
  let t := if Qlt_le_dec 0 t then 0 else t in
  if Qlt_le_dec t bound then bound else t.

(** A transform as the component keeps it: no skew and the same scale on
    both axes. *)
Definition uniform (T : DOMMatrix.t) : Prop :=
  DOMMatrix.b T == 0 /\ DOMMatrix.c T == 0 /\ DOMMatrix.a T == DOMMatrix.d T.

(** ** Drawables and hit test *)

(** The body of a callback supplied by the host; the component only tests
    for its presence and calls it. *)
Inductive HostFunction : Set := hostFunction.

Module Drawable.
(** A property is [Some] exactly when [typeof] of it is ['function'].
    [oid] is the identity of the JavaScript object. *)
Record t : Type := mk {
  oid : nat;
  draw : option HostFunction;
  touches : option (Q -> Q -> bool);
  move : option HostFunction
}.
End Drawable.

Definition isFunction {A : Type} (p : option A) : bool :=
  match p with Some _ => true | None => false end.

(** [typeof d.touches === 'function' && d.touches(pt.x, pt.y)] *)
Definition touchesAt (pt : Point.t) (d : Drawable.t) : bool :=
  match Drawable.touches d with
  | Some touches => touches (Point.x pt) (Point.y pt)
  | None => false
  end.

(** [getObjectAt(pt)].  The [drawables] prop is [None] when it is not an
    array; the result [None] is JavaScript's [undefined]. *)
Definition getObjectAt (drawables : option (list Drawable.t)) (pt : Point.t)
  : option Drawable.t :=
  match drawables with
  | None => None
  | Some ds => find (touchesAt pt) ds
  end.


(** ** Render pass *)

(** What one render pass does to the drawing surface, in order. *)
Inductive Event : Type :=
| ClearRect (x y w h : Q)
| Line (from to : Point.t) (width : Q) (color : string)
| DrawCall (obj : Drawable.t).

Inductive Outcome : Set :=
| Returned
| Thrown (message : string).

Module GridOptions.
(** The [gridOptions] prop.  [draw] is the truthiness of the property; the
    other properties are [None] when the host did not supply them. *)
Record t : Set := mk {
  draw : bool;
  cellSize : option Q;
  lineWidth : option Q;
  lineColor : option string
}.
End GridOptions.

Definition orDefault {A : Type} (default : A) (supplied : option A) : A :=
  match supplied with Some v => v | None => default end.

(** [drawLine(ctx, from, to, options)] strokes one segment. *)
Definition drawLine (from to : Point.t) (width : Q) (color : string) : Event :=
  Line from to width color.

(** [for (let x = start; x < bound; x += cellSize) body(x)].  The loop has no
    bound of its own, so the embedding counts iterations down from [fuel] and
    answers [None] when they run out.  The running sum is an exact rational:
    it is the source's double as long as every sum is representable, as with
    an integer cell size such as the default 40, and is not where the double
    rounds. *)
Fixpoint gridLoop (fuel : nat) (x bound cellSize : Q) (body : Q -> Event)
  : option (list Event) :=
  match fuel with
  | O => None
  | S fuel' =>
      if Qlt_le_dec x bound then
        match gridLoop fuel' (x + cellSize) bound cellSize body with
        | Some rest => Some (body x :: rest)
        | None => None
        end
      else Some []
  end.

Section Render.

Variable devicePixelRatio : Q.
Variable gridOptions : option GridOptions.t.
Variable drawables : option (list Drawable.t).

(** [drawGrid(ctx)] *)
Definition drawGrid (fuel : nat) (rect : Rect.t) : option (list Event) :=
  let scaledWidth := Rect.width rect * DEFAULT_SCALING devicePixelRatio in
  let scaledHeight := Rect.height rect * DEFAULT_SCALING devicePixelRatio in
  let supplied (A : Type) (get : GridOptions.t -> option A) : option A :=
    match gridOptions with Some o => get o | None => None end in
  let lineWidth := orDefault 1 (supplied _ GridOptions.lineWidth) in
  let lineColor :=
    orDefault "#e6e6e6"%string (supplied _ GridOptions.lineColor) in
  let cellSize := orDefault 40 (supplied _ GridOptions.cellSize) in
  match gridLoop fuel 0 scaledWidth cellSize
          (fun x => drawLine (Point.mk x 0) (Point.mk x scaledHeight)
                             lineWidth lineColor) with
  | None => None
  | Some vertical =>
      match gridLoop fuel 0 scaledHeight cellSize
              (fun y => drawLine (Point.mk 0 y) (Point.mk scaledWidth y)
                                 lineWidth lineColor) with
      | None => None
      | Some horizontal => Some (vertical ++ horizontal)
      end
  end.

(** [for (const obj of drawables) ...] inside [draw]. *)
Fixpoint drawObjects (objs : list Drawable.t) : list Event * Outcome :=
  match objs with
  | [] => ([], Returned)
  | obj :: rest =>
      if isFunction (Drawable.draw obj) then
        let (events, outcome) := drawObjects rest in
        (DrawCall obj :: events, outcome)
      else
        ([], Thrown "object passed into InteractableCanvas has no draw function")
  end.

(** [draw(ctx)]: the render pass.  [width] and [height] are those of the
    backing store ([ctx.canvas.width], [ctx.canvas.height]). *)
Definition draw (fuel : nat) (width height : Z) (rect : Rect.t)
  : option (list Event * Outcome) :=
  let clear := ClearRect 0 0 (inject_Z width + 50) (inject_Z height + 50) in
  let grid :=
    match gridOptions with
    | Some o => if GridOptions.draw o then drawGrid fuel rect else Some []
    | None => Some []
    end in
  match grid with
  | None => None
  | Some lines =>
      match drawables with
      | None => Some (clear :: lines, Returned)
      | Some objs =>
          let (events, outcome) := drawObjects objs in
          Some (clear :: lines ++ events, outcome)
      end
  end.

End Render.

(** The effective cell size: the default 40 unless the host supplied one. *)
Definition cellSizeOf (gridOptions : option GridOptions.t) : Q :=
  orDefault 40 (match gridOptions with
                | Some o => GridOptions.cellSize o
                | None => None
                end).

Definition isVertical (ev : Event) : bool :=
  match ev with
  | Line from to _ _ => Qeq_bool (Point.x from) (Point.x to)
  | _ => false
  end.

Definition isHorizontal (ev : Event) : bool :=
  match ev with
  | Line from to _ _ => Qeq_bool (Point.y from) (Point.y to)
  | _ => false
  end.

Definition countIf (p : Event -> bool) (events : list Event) : nat :=
  List.length (filter p events).


(** ** Interaction controller *)

Module MouseEvent.
Record t : Set := mk { button : Z; offsetX : Q; offsetY : Q }.
End MouseEvent.

Module WheelEvent.
Record t : Set := mk { deltaY : Q; offsetX : Q; offsetY : Q }.
End WheelEvent.

(** The mutable state the handlers share: the context's matrix, the two
    expando properties [canvas.draggingObject] and [canvas.dragStart]
    ([None] when unset or null), and [document.body.style.cursor]. *)
Record State : Type := mkState {
  transform : DOMMatrix.t;
  draggingObject : option Drawable.t;
  dragStart : option Point.t;
  cursor : string
}.

(** What a handler does besides updating the state: a call of a drawable's
    [move], a call of [draw(ctx)] (the render pass above), or the TypeError
    of calling a [move] that is not a function. *)
Inductive Effect : Type :=
| MoveCall (obj : Drawable.t) (pt : Point.t)
| Redraw
| TypeError.

(** The state named by the way [mousemove] and [mouseup] dispatch. *)
Inductive Mode : Set := Idle | Panning | DraggingObject.

Definition mode (s : State) : Mode :=
  match draggingObject s with
  | Some _ => DraggingObject
  | None => match dragStart s with
            | Some _ => Panning
            | None => Idle
            end
  end.

Definition Qltb (p q : Q) : bool := if Qlt_le_dec p q then true else false.

Section Controller.

Variable devicePixelRatio : Q.
Variable drawables : option (list Drawable.t).
Variable maxZoom : option Q.
Variable rect : Rect.t.

(** [const maxScaleValue = maxZoom ? maxZoom : 5]; an absent prop and the
    number 0 are falsy. *)
Definition maxScaleValue : Q :=
  match maxZoom with
  | Some m => if Qeq_bool m 0 then 5 else m
  | None => 5
  end.

(** A handler answers [None] when [getTransformedPoint] leaves the finite
    numbers, and otherwise the new state with the effects in order. *)
Definition mousewheel (s : State) (ev : WheelEvent.t)
  : option (State * list Effect) :=
  if Qltb (WheelEvent.deltaY ev) 0
     && Qltb maxScaleValue (DOMMatrix.a (transform s))
  then Some (s, [])
  else
    let zoom := if Qltb (WheelEvent.deltaY ev) 0 then 1.02 else 0.98 in
    match getTransformedPoint devicePixelRatio (transform s)
            (WheelEvent.offsetX ev) (WheelEvent.offsetY ev) with
    | None => None
    | Some pt =>
        let ctx := zoomAbout (transform s) pt zoom in
        let ctx := enforceBounds devicePixelRatio rect ctx in
        Some (mkState ctx (draggingObject s) (dragStart s) (cursor s),
              [Redraw])
    end.

Definition mousedown (s : State) (ev : MouseEvent.t)
  : option (State * list Effect) :=
  if negb (Z.eqb (MouseEvent.button ev) 0) then Some (s, [])
  else
    match getTransformedPoint devicePixelRatio (transform s)
            (MouseEvent.offsetX ev) (MouseEvent.offsetY ev) with
    | None => None
    | Some pt =>
        let startPan :=
          mkState (transform s) (draggingObject s) (Some pt) "grabbing" in
        match getObjectAt drawables pt with
        | Some obj =>
            if isFunction (Drawable.move obj)
            then Some (mkState (transform s) (Some obj) (dragStart s)
                               "grabbing", [])
            else Some (startPan, [])
        | None => Some (startPan, [])
        end
    end.

Definition mousemove (s : State) (ev : MouseEvent.t)
  : option (State * list Effect) :=
  match getTransformedPoint devicePixelRatio (transform s)
          (MouseEvent.offsetX ev) (MouseEvent.offsetY ev) with
  | None => None
  | Some pt =>
      match draggingObject s with
      | Some obj =>
          if isFunction (Drawable.move obj)
          then Some (s, [MoveCall obj pt; Redraw])
          else Some (s, [TypeError])
      | None =>
          match dragStart s with
          | Some start =>
              let ctx := Ctx.translate (transform s)
                           (Point.x pt - Point.x start)
                           (Point.y pt - Point.y start) in
              let ctx := enforceBounds devicePixelRatio rect ctx in
              Some (mkState ctx (draggingObject s) (dragStart s) (cursor s),
                    [Redraw])
          | None => Some (s, [])
          end
      end
  end.

Definition mouseup (s : State) : State :=
  match draggingObject s with
  | Some _ => mkState (transform s) None (dragStart s) "auto"
  | None =>
      match dragStart s with
      | Some _ => mkState (transform s) None None "auto"
      | None => s
      end
  end.

(** The state once the mount effect has run: [scaleCanvas], then
    [enforceBounds]. *)
Definition mounted : State :=
  let '(_, _, ctx) := scaleCanvas devicePixelRatio rect in
  mkState (enforceBounds devicePixelRatio rect ctx) None None "".

(** The events the component listens to. *)
Inductive Input : Set :=
| OnWheel (ev : WheelEvent.t)
| OnMouseDown (ev : MouseEvent.t)
| OnMouseMove (ev : MouseEvent.t)
| OnMouseUp.

Definition handle (s : State) (i : Input) : option (State * list Effect) :=
  match i with
  | OnWheel ev => mousewheel s ev
  | OnMouseDown ev => mousedown s ev
  | OnMouseMove ev => mousemove s ev
  | OnMouseUp => Some (mouseup s, [])
  end.

(** Events are handled one after the other, each to completion. *)
Fixpoint run (s : State) (inputs : list Input) : option (State * list Effect) :=
  match inputs with
  | [] => Some (s, [])
  | i :: rest =>
      match handle s i with
      | None => None
      | Some (s', effects) =>
          match run s' rest with
          | None => None
          | Some (s'', effects') => Some (s'', effects ++ effects')
          end
      end
  end.

(** The states the component can be in after mounting. *)
Inductive reachable : State -> Prop :=
| reachable_mounted : reachable mounted
| reachable_step (s s' : State) (i : Input) (effects : list Effect) :
    reachable s -> handle s i = Some (s', effects) -> reachable s'.

End Controller.

(** ** Notions used to state the properties *)

(** The logical point of a device point under a transform with non-zero
    horizontal scale: the value [getTransformedPoint] returns. *)
Definition logicalPoint (dpr : Q) (T : DOMMatrix.t) (x y : Q) : Point.t :=
  Point.mk
    (1 / DOMMatrix.a T * x * DEFAULT_SCALING dpr
     - 1 / DOMMatrix.a T * DOMMatrix.e T)
    (1 / DOMMatrix.a T * y * DEFAULT_SCALING dpr
     - 1 / DOMMatrix.a T * DOMMatrix.f T).

(** The transform after one pan step: translate by the difference between
    the logical point under the pointer and the anchor, then clamp. *)
Definition panStep (dpr : Q) (rect : Rect.t) (anchor : Point.t)
    (T : DOMMatrix.t) (ev : MouseEvent.t) : DOMMatrix.t :=
  let pt := logicalPoint dpr T (MouseEvent.offsetX ev) (MouseEvent.offsetY ev) in
  enforceBounds dpr rect
    (Ctx.translate T (Point.x pt - Point.x anchor)
                     (Point.y pt - Point.y anchor)).

(** The arguments [for]-loop variable takes: [x], [x + cellSize], ... *)
Fixpoint steps (n : nat) (x cellSize : Q) : list Q :=
  match n with
  | O => []
  | S n' => x :: steps n' (x + cellSize) cellSize
  end.

(** The number of iterations of a grid loop from 0 to [bound]. *)
Definition lineCount (bound cellSize : Q) : nat :=
  Z.to_nat (Qceiling (bound / cellSize)).

Definition Qnat (n : nat) : Q := inject_Z (Z.of_nat n).

(** The density-scaled extents [drawGrid] works with, and the segments its
    two loops stroke. *)
Definition scaledWidth (dpr : Q) (rect : Rect.t) : Q :=
  Rect.width rect * DEFAULT_SCALING dpr.

Definition scaledHeight (dpr : Q) (rect : Rect.t) : Q :=
  Rect.height rect * DEFAULT_SCALING dpr.

Definition lineWidthOf (gridOptions : option GridOptions.t) : Q :=
  orDefault 1 (match gridOptions with
               | Some o => GridOptions.lineWidth o
               | None => None
               end).

Definition lineColorOf (gridOptions : option GridOptions.t) : string :=
  orDefault "#e6e6e6"%string
            (match gridOptions with
             | Some o => GridOptions.lineColor o
             | None => None
             end).

Definition verticalLine (dpr : Q) (gridOptions : option GridOptions.t)
    (rect : Rect.t) (x : Q) : Event :=
  drawLine (Point.mk x 0) (Point.mk x (scaledHeight dpr rect))
           (lineWidthOf gridOptions) (lineColorOf gridOptions).

Definition horizontalLine (dpr : Q) (gridOptions : option GridOptions.t)
    (rect : Rect.t) (y : Q) : Event :=
  drawLine (Point.mk 0 y) (Point.mk (scaledWidth dpr rect) y)
           (lineWidthOf gridOptions) (lineColorOf gridOptions).

(** The segments of a complete grid, vertical ones first. *)
Definition gridLines (dpr : Q) (gridOptions : option GridOptions.t)
    (rect : Rect.t) : list Event :=
  let cellSize := cellSizeOf gridOptions in
  map (verticalLine dpr gridOptions rect)
      (steps (lineCount (scaledWidth dpr rect) cellSize) 0 cellSize)
  ++ map (horizontalLine dpr gridOptions rect)
         (steps (lineCount (scaledHeight dpr rect) cellSize) 0 cellSize).

(** Iterations that are enough for both loops of [drawGrid]. *)
Definition gridFuel (dpr : Q) (gridOptions : option GridOptions.t)
    (rect : Rect.t) : nat :=
  S (Nat.max (lineCount (scaledWidth dpr rect) (cellSizeOf gridOptions))
             (lineCount (scaledHeight dpr rect) (cellSizeOf gridOptions))).

(** [typeof obj.draw === 'function'] *)
Definition hasDraw (obj : Drawable.t) : bool := isFunction (Drawable.draw obj).

(** The first step of [draw]: [ctx.clearRect(0, 0, w + 50, h + 50)]. *)
Definition clearEvent (width height : Z) : Event :=
  ClearRect 0 0 (inject_Z width + 50) (inject_Z height + 50).

(** The second step of [draw]:
    [if (gridOptions && gridOptions.draw) { drawGrid(ctx) }]. *)
Definition gridPhase (dpr : Q) (gridOptions : option GridOptions.t)
    (fuel : nat) (rect : Rect.t) : option (list Event) :=
  match gridOptions with
  | Some o => if GridOptions.draw o then drawGrid dpr gridOptions fuel rect
              else Some []
  | None => Some []
  end.

(** The grid is drawn at all. *)
Definition gridEnabled (gridOptions : option GridOptions.t) : bool :=
  match gridOptions with
  | Some o => GridOptions.draw o
  | None => false
  end.

(** A segment of the grid spans the backing store of the given extents. *)
Definition spans (w h : Q) (ev : Event) : Prop :=
  match ev with
  | Line from to _ _ =>
      (Point.x from == Point.x to /\ Point.y from == 0 /\ Point.y to == h /\
       0 <= Point.x from < w)
      \/
      (Point.y from == Point.y to /\ Point.x from == 0 /\ Point.x to == w /\
       0 <= Point.y from < h)
  | _ => True
  end.

(** What the grid phase of a render pass strokes when it returns. *)
Definition gridTrace (dpr : Q) (gridOptions : option GridOptions.t)
    (rect : Rect.t) : list Event :=
  if gridEnabled gridOptions then gridLines dpr gridOptions rect else [].

(** A draggable box covering the logical square [0, 10] x [0, 10], used in
    the examples. *)
Definition box : Drawable.t :=
  Drawable.mk 1 (Some hostFunction)
    (Some (fun x y => Qle_bool 0 x && Qle_bool x 10
                      && Qle_bool 0 y && Qle_bool y 10))
    (Some hostFunction).

(** The invariant of the controller: the transform has no skew, the same
    scale of at least 1 on both axes, and a dragged drawable can be moved. *)
Definition invariant (s : State) : Prop :=
  uniform (transform s) /\
  1 <= DOMMatrix.a (transform s) /\
  (forall obj, draggingObject s = Some obj ->
               isFunction (Drawable.move obj) = true).

(** ** Further notions: bounds, the bitmap, the context menu *)

(** The postcondition of [enforceBounds], as a predicate on a transform. *)
Definition inBounds (dpr : Q) (rect : Rect.t) (T : DOMMatrix.t) : Prop :=
  1 <= DOMMatrix.a T /\ 1 <= DOMMatrix.d T /\
  maxTranslation dpr (Rect.width rect) (DOMMatrix.a T) <= DOMMatrix.e T <= 0 /\
  maxTranslation dpr (Rect.height rect) (DOMMatrix.d T) <= DOMMatrix.f T <= 0.

(** A pointer offset ([e.offsetX], [e.offsetY]) that lies on the canvas. *)
Definition onCanvas (rect : Rect.t) (x y : Q) : Prop :=
  0 <= x <= Rect.width rect /\ 0 <= y <= Rect.height rect.

(** Where the context puts a point of the drawing coordinates on the bitmap:
    the current matrix applied to it. *)
Definition applyTransform (T : DOMMatrix.t) (p : Point.t) : Point.t :=
  Point.mk
    (DOMMatrix.a T * Point.x p + DOMMatrix.c T * Point.y p + DOMMatrix.e T)
    (DOMMatrix.b T * Point.x p + DOMMatrix.d T * Point.y p + DOMMatrix.f T).

(** The largest scale the wheel handler can produce: one zoom step above
    [maxScaleValue], or the scale the canvas is mounted with. *)
Definition scaleCap (dpr : Q) (maxZoom : option Q) : Q :=
  Qmax (DEFAULT_SCALING dpr) (1.02 * maxScaleValue maxZoom).

Module ContextMenuEvent.
Record t : Set := mk { offsetX : Q; offsetY : Q; clientX : Q; clientY : Q }.
End ContextMenuEvent.

(** What the [contextmenu] handler does, in order: [e.preventDefault()], the
    call of the [onContextMenu] prop with its payload, or the TypeError of
    calling a prop that is not a function. *)
Inductive HostCall : Type :=
| PreventDefault
| OnContextMenu (pt : Point.t) (obj : option Drawable.t) (clientX clientY : Q)
| NotAFunction.

Section ContextMenu.

Variable devicePixelRatio : Q.
Variable drawables : option (list Drawable.t).
Variable onContextMenu : option HostFunction.

(** The [contextmenu] listener.  It writes nothing to the state. *)
Definition contextmenu (s : State) (ev : ContextMenuEvent.t)
  : option (list HostCall) :=
  match getTransformedPoint devicePixelRatio (transform s)
          (ContextMenuEvent.offsetX ev) (ContextMenuEvent.offsetY ev) with
  | None => None
  | Some pt =>
      let payload :=
        OnContextMenu pt (getObjectAt drawables pt)
                      (ContextMenuEvent.clientX ev)
                      (ContextMenuEvent.clientY ev) in
      Some (PreventDefault
              :: (if isFunction onContextMenu then [payload]
                  else [NotAFunction]))
  end.

End ContextMenu.

(** ** The demo host *)

Module App.

(** What a drawable of the demo paints: [ctx.arc(cx, cy, radius, 0, 2 * PI)]
    followed by [ctx.fill()]. *)
Record Arc : Set := mkArc { cx : Q; cy : Q; radius : Q }.

(** [useState([...])]: one disc at (200, 200). *)
Definition initial : list Arc := [mkArc 200 200 50].

(** The two timers and the context-menu callback; each replaces the state
    by [[...oldArray, drawable]]. *)
Inductive Event : Set :=
| TimerFired
| ContextMenu (pt : Point.t).

Definition step (arcs : list Arc) (ev : Event) : list Arc :=
  match ev with
  | TimerFired => arcs ++ [mkArc 400 400 50]
  | ContextMenu pt => arcs ++ [mkArc (Point.x pt) (Point.y pt) 25]
  end.

(** The objects handed to the component: each has a [draw] function and
    nothing else; [oid] is the position in the array. *)
Fixpoint drawablesFrom (first : nat) (arcs : list Arc) : list Drawable.t :=
  match arcs with
  | [] => []
  | _ :: rest =>
      Drawable.mk first (Some hostFunction) None None
        :: drawablesFrom (S first) rest
  end.

Definition drawables (arcs : list Arc) : list Drawable.t :=
  drawablesFrom 0 arcs.

(** [gridOptions={{ draw: true }}] *)
Definition gridOptions : option GridOptions.t :=
  Some (GridOptions.mk true None None None).

End App.

(** The points of the drawing coordinates that a [clearRect] wipes. *)
Definition clears (ev : Event) (p : Point.t) : Prop :=
  match ev with
  | ClearRect x y w h =>
      x <= Point.x p <= x + w /\ y <= Point.y p <= y + h
  | _ => False
  end.
(** ** Facts about the density factor *)

Lemma DEFAULT_SCALING_ge_2 (dpr : Q) : 2 <= DEFAULT_SCALING dpr.
Proof. unfold DEFAULT_SCALING. apply Q.le_max_l. Qed.

Lemma DEFAULT_SCALING_pos (dpr : Q) : 0 < DEFAULT_SCALING dpr.
Proof. pose proof (DEFAULT_SCALING_ge_2 dpr). lra. Qed.

Lemma DEFAULT_SCALING_low (dpr : Q) : dpr <= 2 -> DEFAULT_SCALING dpr == 2.
Proof. intros H. unfold DEFAULT_SCALING. apply Q.max_l. exact H. Qed.

(** ** Coordinate mapper *)

Lemma getTransformedPoint_some (dpr : Q) (T : DOMMatrix.t) (x y : Q) :
  ~ DOMMatrix.a T == 0 ->
  getTransformedPoint dpr T x y =
  Some (Point.mk
          (1 / DOMMatrix.a T * x * DEFAULT_SCALING dpr
           - 1 / DOMMatrix.a T * DOMMatrix.e T)
          (1 / DOMMatrix.a T * y * DEFAULT_SCALING dpr
           - 1 / DOMMatrix.a T * DOMMatrix.f T)).
Proof.
  intros Ha. unfold getTransformedPoint.
  destruct (Qeq_bool (DOMMatrix.a T) 0) eqn:E.
  - apply Qeq_bool_iff in E. contradiction.
  - reflexivity.
Qed.

Lemma getTransformedPoint_none (dpr : Q) (T : DOMMatrix.t) (x y : Q) :
  DOMMatrix.a T == 0 -> getTransformedPoint dpr T x y = None.
Proof.
  intros Ha. unfold getTransformedPoint.
  apply Qeq_bool_iff in Ha. rewrite Ha. reflexivity.
Qed.

Lemma getTransformedPoint_inv (dpr : Q) (T : DOMMatrix.t) (x y : Q) (L : Point.t) :
  getTransformedPoint dpr T x y = Some L ->
  ~ DOMMatrix.a T == 0 /\
  Point.x L = 1 / DOMMatrix.a T * x * DEFAULT_SCALING dpr
              - 1 / DOMMatrix.a T * DOMMatrix.e T /\
  Point.y L = 1 / DOMMatrix.a T * y * DEFAULT_SCALING dpr
              - 1 / DOMMatrix.a T * DOMMatrix.f T.
Proof.
  unfold getTransformedPoint.
  destruct (Qeq_bool (DOMMatrix.a T) 0) eqn:E; [discriminate|].
  intros H. injection H as <-. simpl. split; [|split; reflexivity].
  intros Ha. apply Qeq_bool_iff in Ha. congruence.
Qed.

(** C2. Under the identity transform (scale 1, translation 0) the mapper
    returns [(x * pixelDensityFactor, y * pixelDensityFactor)] for every
    device point; in particular, with density factor 2 (as on the 700 x 700
    canvas of the demo) the device point (350, 350) maps to (700, 700). *)
Theorem identity_mapping_contract
    (dpr x y : Q) (T : DOMMatrix.t) :
  DOMMatrix.a T == 1 -> DOMMatrix.e T == 0 -> DOMMatrix.f T == 0 ->
  exists L : Point.t,
    getTransformedPoint dpr T x y = Some L /\
    Point.equiv L (Point.mk (x * DEFAULT_SCALING dpr)
                            (y * DEFAULT_SCALING dpr)) /\
    (DEFAULT_SCALING dpr == 2 -> x == 350 -> y == 350 ->
     Point.equiv L (Point.mk 700 700)).
Proof.
  intros Ha He Hf.
  assert (Hn : ~ DOMMatrix.a T == 0) by (rewrite Ha; discriminate).
  eexists. split; [apply getTransformedPoint_some; exact Hn|].
  split.
  - split; simpl; rewrite Ha, ?He, ?Hf; field.
  - intros HD Hx Hy.
    split; simpl; rewrite Ha, ?He, ?Hf, HD, ?Hx, ?Hy; reflexivity.
Qed.

Lemma identity_mapping_contract_witness :
  exists L : Point.t,
    getTransformedPoint 1 DOMMatrix.identity 350 350 = Some L /\
    Point.equiv L (Point.mk (350 * DEFAULT_SCALING 1)
                            (350 * DEFAULT_SCALING 1)) /\
    (DEFAULT_SCALING 1 == 2 -> 350 == 350 -> 350 == 350 ->
     Point.equiv L (Point.mk 700 700)).
Proof.
  apply (identity_mapping_contract 1 350 350 DOMMatrix.identity);
    reflexivity.
Defined.

(** ** Bounds enforcer *)

Lemma maxTranslation_nonpos (dpr extent scale : Q) :
  0 <= extent -> 1 <= scale -> maxTranslation dpr extent scale <= 0.
Proof.
  intros He Hs. unfold maxTranslation.
  pose proof (DEFAULT_SCALING_pos dpr) as HD.
  assert (H1 : 0 <= extent * (scale - 1)).
  { apply Qmult_le_0_compat; lra. }
  assert (H2 : 0 <= (extent * (scale - 1)) * DEFAULT_SCALING dpr).
  { apply Qmult_le_0_compat; lra. }
  setoid_replace (- (extent * scale - extent) * DEFAULT_SCALING dpr)
    with (- ((extent * (scale - 1)) * DEFAULT_SCALING dpr)) by ring.
  lra.
Qed.


Lemma enforceBounds_unfold (dpr : Q) (rect : Rect.t) (T : DOMMatrix.t) :
  enforceBounds dpr rect T =
  DOMMatrix.mk
    (clampScale (DOMMatrix.a T)) (DOMMatrix.b T) (DOMMatrix.c T)
    (clampScale (DOMMatrix.d T))
    (clampTranslation (DOMMatrix.e T)
       (maxTranslation dpr (Rect.width rect) (clampScale (DOMMatrix.a T))))
    (clampTranslation (DOMMatrix.f T)
       (maxTranslation dpr (Rect.height rect) (clampScale (DOMMatrix.d T)))).
Proof. reflexivity. Qed.

Lemma clampScale_ge_1 (s : Q) : 1 <= clampScale s.
Proof. unfold clampScale. destruct (Qlt_le_dec s 1); lra. Qed.

Lemma clampScale_fix (s : Q) : 1 <= s -> clampScale s = s.
Proof. unfold clampScale. intros H. destruct (Qlt_le_dec s 1); [lra|reflexivity]. Qed.

Lemma clampScale_idem (s : Q) : clampScale (clampScale s) = clampScale s.
Proof. apply clampScale_fix, clampScale_ge_1. Qed.

Lemma clampTranslation_range (t bound : Q) :
  bound <= 0 -> bound <= clampTranslation t bound <= 0.
Proof.
  intros Hb. unfold clampTranslation.
  destruct (Qlt_le_dec 0 t); destruct (Qlt_le_dec _ bound); lra.
Qed.

Lemma clampTranslation_idem (t bound : Q) :
  clampTranslation (clampTranslation t bound) bound = clampTranslation t bound.
Proof.
  unfold clampTranslation.
  destruct (Qlt_le_dec 0 t) as [H1|H1].
  - destruct (Qlt_le_dec 0 bound) as [H2|H2].
    + destruct (Qlt_le_dec 0 bound) as [H3|H3]; [|lra].
      destruct (Qlt_le_dec 0 bound); [reflexivity|lra].
    + destruct (Qlt_le_dec 0 0) as [H3|H3]; [lra|].
      destruct (Qlt_le_dec 0 bound); [lra|reflexivity].
  - destruct (Qlt_le_dec t bound) as [H2|H2].
    + destruct (Qlt_le_dec 0 bound) as [H3|H3].
      * destruct (Qlt_le_dec 0 bound); [reflexivity|lra].
      * destruct (Qlt_le_dec bound bound); [lra|reflexivity].
    + destruct (Qlt_le_dec 0 t) as [H3|H3]; [lra|].
      destruct (Qlt_le_dec t bound); [lra|reflexivity].
Qed.

(** C3. Whatever transform goes in, the transform written back by
    [enforceBounds] for a canvas bounding rect has both scales at least 1 and
    each translation in the closed interval from
    [-(extent * scale - extent) * pixelDensityFactor] to 0; the function is
    total. *)
Theorem enforceBounds_postcondition
    (dpr : Q) (rect : Rect.t) (T : DOMMatrix.t) :
  Rect.native rect ->
  let T' := enforceBounds dpr rect T in
  1 <= DOMMatrix.a T' /\ 1 <= DOMMatrix.d T' /\
  - (Rect.width rect * DOMMatrix.a T' - Rect.width rect) * DEFAULT_SCALING dpr
    <= DOMMatrix.e T' <= 0 /\
  - (Rect.height rect * DOMMatrix.d T' - Rect.height rect) * DEFAULT_SCALING dpr
    <= DOMMatrix.f T' <= 0.
Proof.
  intros [Hw Hh] T'. subst T'. rewrite enforceBounds_unfold. simpl.
  repeat split; try apply clampScale_ge_1;
    apply clampTranslation_range, maxTranslation_nonpos;
    auto using clampScale_ge_1.
Qed.

Lemma enforceBounds_postcondition_witness :
  let T' := enforceBounds 1 (Rect.mk 700 700)
                          (DOMMatrix.mk (1#2) 0 0 (1#2) 30 (-5000)) in
  1 <= DOMMatrix.a T' /\ 1 <= DOMMatrix.d T' /\
  - (700 * DOMMatrix.a T' - 700) * DEFAULT_SCALING 1 <= DOMMatrix.e T' <= 0 /\
  - (700 * DOMMatrix.d T' - 700) * DEFAULT_SCALING 1 <= DOMMatrix.f T' <= 0.
Proof.
  apply (enforceBounds_postcondition 1 (Rect.mk 700 700)
           (DOMMatrix.mk (1#2) 0 0 (1#2) 30 (-5000))).
  split; simpl; discriminate.
Defined.

(** C4. Applying [enforceBounds] twice gives the same transform as applying
    it once. *)
Theorem enforceBounds_idempotent (dpr : Q) (rect : Rect.t) (T : DOMMatrix.t) :
  enforceBounds dpr rect (enforceBounds dpr rect T) = enforceBounds dpr rect T.
Proof.
  rewrite (enforceBounds_unfold dpr rect (enforceBounds dpr rect T)).
  rewrite (enforceBounds_unfold dpr rect T). simpl.
  rewrite !clampScale_idem, !clampTranslation_idem. reflexivity.
Qed.

(** ** Zoom about a pivot *)


Lemma zoomAbout_fields (T : DOMMatrix.t) (L : Point.t) (zoom : Q) :
  zoomAbout T L zoom =
  DOMMatrix.mk
    (DOMMatrix.a T * zoom) (DOMMatrix.b T * zoom)
    (DOMMatrix.c T * zoom) (DOMMatrix.d T * zoom)
    (DOMMatrix.a T * zoom * - Point.x L + DOMMatrix.c T * zoom * - Point.y L
     + (DOMMatrix.a T * Point.x L + DOMMatrix.c T * Point.y L + DOMMatrix.e T))
    (DOMMatrix.b T * zoom * - Point.x L + DOMMatrix.d T * zoom * - Point.y L
     + (DOMMatrix.b T * Point.x L + DOMMatrix.d T * Point.y L + DOMMatrix.f T)).
Proof. reflexivity. Qed.

Lemma zoomAbout_uniform (T : DOMMatrix.t) (L : Point.t) (zoom : Q) :
  uniform T -> uniform (zoomAbout T L zoom).
Proof.
  intros (Hb & Hc & Had). rewrite zoomAbout_fields.
  unfold uniform; simpl. rewrite Hb, Hc, Had. repeat split; ring.
Qed.

(** C1. Zoom-pivot round trip: for every transform the component keeps (no
    skew, the same scale on both axes), every device point (x, y) that maps
    to a logical point L, and every zoom factor that leaves a scale (it is
    not 0): after the wheel composition translate(L), scale(zoom),
    translate(-L) the same device point still maps to L.  The equality is
    that of exact arithmetic, which the rounding of the two factors the
    handler uses, 1.02 and 0.98, follows within tolerance. *)
Theorem zoom_pivot_round_trip
    (dpr : Q) (T : DOMMatrix.t) (x y zoom : Q) (L : Point.t) :
  uniform T ->
  ~ zoom == 0 ->
  getTransformedPoint dpr T x y = Some L ->
  exists L', getTransformedPoint dpr (zoomAbout T L zoom) x y = Some L' /\
             Point.equiv L' L.
Proof.
  intros (Hb & Hc & Had) Hz HL.
  apply getTransformedPoint_inv in HL. destruct HL as (Ha & Hx & Hy).
  assert (Haz : ~ DOMMatrix.a (zoomAbout T L zoom) == 0).
  { rewrite zoomAbout_fields. simpl. intros H.
    apply Qmult_integral in H. tauto. }
  eexists. split; [apply getTransformedPoint_some; exact Haz|].
  rewrite zoomAbout_fields. unfold Point.equiv. simpl.
  rewrite Hb, Hc, <- Had. rewrite Hx, Hy.
  split; field; tauto.
Qed.

Lemma zoom_pivot_round_trip_witness :
  exists L',
    getTransformedPoint 2
      (zoomAbout (DOMMatrix.mk 2 0 0 2 0 0) (Point.mk (1400#4) (1400#4)) 1.02)
      350 350 = Some L' /\
    Point.equiv L' (Point.mk (1400#4) (1400#4)).
Proof.
  apply (zoom_pivot_round_trip 2 (DOMMatrix.mk 2 0 0 2 0 0) 350 350 1.02).
  - repeat split; reflexivity.
  - discriminate.
  - reflexivity.
Defined.

(** The factor has to be non-zero: from the freshly scaled canvas (scale 2,
    no translation) the device point (350, 350) maps to the logical point
    (350, 350); after translate(L), scale(0), translate(-L) the horizontal
    scale is 0 and the same device point has no finite image.  The wheel
    handler never passes such a factor. *)
Lemma zoom_pivot_fails_for_zero_factor :
  exists L,
    getTransformedPoint 2 (DOMMatrix.mk 2 0 0 2 0 0) 350 350 = Some L /\
    Point.equiv L (Point.mk 350 350) /\
    getTransformedPoint 2 (zoomAbout (DOMMatrix.mk 2 0 0 2 0 0) L 0) 350 350
    = None.
Proof.
  eexists. split; [reflexivity|]. split; [split; reflexivity|]. reflexivity.
Qed.

(** Nor can the scales differ: with horizontal scale 2 and vertical scale 4
    the pivot moves from (350, 350) to (350, 525) under a zoom by 2.  No
    state of the component has such a transform. *)
Lemma zoom_pivot_needs_uniform_scale :
  exists L L',
    getTransformedPoint 2 (DOMMatrix.mk 2 0 0 4 0 0) 350 350 = Some L /\
    getTransformedPoint 2 (zoomAbout (DOMMatrix.mk 2 0 0 4 0 0) L 2) 350 350
    = Some L' /\
    Point.equiv L (Point.mk 350 350) /\
    Point.equiv L' (Point.mk 350 525).
Proof.
  do 2 eexists. split; [reflexivity|]. split; [reflexivity|].
  split; split; reflexivity.
Qed.


Lemma find_first {A : Type} (p : A -> bool) (l1 l2 : list A) (x : A) :
  Forall (fun z => p z = false) l1 -> p x = true ->
  find p (l1 ++ x :: l2) = Some x.
Proof.
  induction 1 as [|z l1 Hz _ IH]; intros Hx; simpl.
  - rewrite Hx. reflexivity.
  - rewrite Hz. apply IH, Hx.
Qed.

Lemma find_split {A : Type} (p : A -> bool) (l : list A) (x : A) :
  find p l = Some x ->
  exists l1 l2, l = l1 ++ x :: l2 /\
                Forall (fun z => p z = false) l1 /\ p x = true.
Proof.
  induction l as [|z l IH]; simpl; [discriminate|].
  destruct (p z) eqn:Hz.
  - intros [= ->]. exists [], l. auto.
  - intros H. destruct (IH H) as (l1 & l2 & -> & Hl1 & Hx).
    exists (z :: l1), l2. auto.
Qed.

Lemma find_none_iff {A : Type} (p : A -> bool) (l : list A) :
  find p l = None <-> Forall (fun z => p z = false) l.
Proof.
  induction l as [|z l IH]; simpl.
  - split; auto.
  - destruct (p z) eqn:Hz; split; intros H.
    + discriminate.
    + inversion H; congruence.
    + constructor; [exact Hz | apply IH, H].
    + inversion H; apply IH; assumption.
Qed.

(** What [touchesAt] computes, in terms of the drawable's own function. *)
Lemma touchesAt_true_iff (pt : Point.t) (d : Drawable.t) :
  touchesAt pt d = true <->
  exists touches, Drawable.touches d = Some touches /\
                  touches (Point.x pt) (Point.y pt) = true.
Proof.
  unfold touchesAt. destruct (Drawable.touches d) as [t|]; split.
  - intros H. exists t. auto.
  - intros (t' & [= <-] & H). exact H.
  - discriminate.
  - intros (t' & H & _). discriminate.
Qed.

Lemma touchesAt_false_iff (pt : Point.t) (d : Drawable.t) :
  touchesAt pt d = false <->
  forall touches, Drawable.touches d = Some touches ->
                  touches (Point.x pt) (Point.y pt) = false.
Proof.
  unfold touchesAt. destruct (Drawable.touches d) as [t|]; split.
  - intros H t' [= <-]. exact H.
  - intros H. apply H. reflexivity.
  - discriminate.
  - reflexivity.
Qed.

Lemma Forall_touchesAt_false (pt : Point.t) (ds : list Drawable.t) :
  Forall (fun z => touchesAt pt z = false) ds <->
  Forall (fun z => forall touches,
              Drawable.touches z = Some touches ->
              touches (Point.x pt) (Point.y pt) = false) ds.
Proof.
  split; intros H; (eapply Forall_impl; [|exact H]);
    intros z Hz; apply (touchesAt_false_iff pt z); exact Hz.
Qed.

(** C7. [getObjectAt] returns the first drawable, in list order, whose
    [touches] is a function and returns true at the point: every drawable
    before it either has no [touches] function (it is skipped) or has one
    that returns false there.  It returns nothing exactly when the drawables
    are not a list or no drawable has a [touches] function returning true at
    the point.  Of two drawables whose [touches] both return true at the
    point, the earlier one is returned. *)
Theorem getObjectAt_first_hit (pt : Point.t) :
  (forall (drawables : option (list Drawable.t)) (d : Drawable.t),
      getObjectAt drawables pt = Some d <->
      exists before after,
        drawables = Some (before ++ d :: after) /\
        Forall (fun z => forall touches,
                    Drawable.touches z = Some touches ->
                    touches (Point.x pt) (Point.y pt) = false) before /\
        exists touches,
          Drawable.touches d = Some touches /\
          touches (Point.x pt) (Point.y pt) = true) /\
  (forall drawables : option (list Drawable.t),
      getObjectAt drawables pt = None <->
      drawables = None \/
      exists ds,
        drawables = Some ds /\
        Forall (fun z => forall touches,
                    Drawable.touches z = Some touches ->
                    touches (Point.x pt) (Point.y pt) = false) ds) /\
  (forall (d1 d2 : Drawable.t) (touches1 touches2 : Q -> Q -> bool)
          (between after : list Drawable.t),
      Drawable.touches d1 = Some touches1 ->
      touches1 (Point.x pt) (Point.y pt) = true ->
      Drawable.touches d2 = Some touches2 ->
      touches2 (Point.x pt) (Point.y pt) = true ->
      getObjectAt (Some (d1 :: between ++ d2 :: after)) pt = Some d1).
Proof.
  split; [|split].
  - intros drawables d. split.
    + destruct drawables as [ds|]; simpl; [|discriminate].
      intros H. apply find_split in H.
      destruct H as (l1 & l2 & -> & H1 & H2).
      exists l1, l2. split; [reflexivity|].
      split; [apply Forall_touchesAt_false, H1 | apply touchesAt_true_iff, H2].
    + intros (l1 & l2 & -> & H1 & H2). simpl.
      apply find_first;
        [apply Forall_touchesAt_false, H1 | apply touchesAt_true_iff, H2].
  - intros drawables. split.
    + destruct drawables as [ds|]; simpl; [|auto].
      intros H. right. exists ds. split; [reflexivity|].
      apply Forall_touchesAt_false, find_none_iff, H.
    + intros [->|(ds & -> & H)]; simpl; [reflexivity|].
      apply find_none_iff, Forall_touchesAt_false, H.
  - intros d1 d2 t1 t2 between after Ht1 H1 _ _. simpl.
    assert (E : touchesAt pt d1 = true)
      by (apply touchesAt_true_iff; exists t1; auto).
    rewrite E. reflexivity.
Qed.

Lemma getObjectAt_first_hit_witness :
  let inSquare := fun x y : Q => Qle_bool x 10 && Qle_bool y 10 in
  let inDisc := fun x y : Q => Qle_bool (x * x + y * y) 400 in
  let square := Drawable.mk 1 (Some hostFunction) (Some inSquare) None in
  let plain := Drawable.mk 0 (Some hostFunction) None None in
  let disc := Drawable.mk 2 (Some hostFunction) (Some inDisc) None in
  getObjectAt (Some (square :: [plain] ++ disc :: [])) (Point.mk 3 4)
  = Some square /\
  getObjectAt (Some ([square; plain] ++ disc :: [])) (Point.mk 12 5)
  = Some disc /\
  getObjectAt (Some [square; plain; disc]) (Point.mk 30 40) = None.
Proof.
  intros inSquare inDisc square plain disc. split; [|split].
  - apply (proj2 (proj2 (getObjectAt_first_hit (Point.mk 3 4)))
             square disc inSquare inDisc [plain] []); reflexivity.
  - apply (proj1 (getObjectAt_first_hit (Point.mk 12 5))).
    exists [square; plain], []. split; [reflexivity|]. split.
    + repeat constructor.
      * intros t [= <-]. reflexivity.
      * intros t H. discriminate H.
    + exists inDisc. split; reflexivity.
  - apply (proj1 (proj2 (getObjectAt_first_hit (Point.mk 30 40)))).
    right. exists [square; plain; disc]. split; [reflexivity|].
    repeat constructor.
    + intros t [= <-]. reflexivity.
    + intros t H. discriminate H.
    + intros t [= <-]. reflexivity.
Defined.

(** ** Grid loops *)

Lemma Qnat_nonneg (n : nat) : 0 <= Qnat n.
Proof.
  unfold Qnat. change 0 with (inject_Z 0). rewrite <- Zle_Qle. lia.
Qed.

Lemma Qnat_S (n : nat) : Qnat (S n) == Qnat n + 1.
Proof.
  unfold Qnat. rewrite Nat2Z.inj_succ. unfold Z.succ.
  rewrite inject_Z_plus. reflexivity.
Qed.

Lemma Qnat_to_nat (z : Z) : (0 <= z)%Z -> Qnat (Z.to_nat z) = inject_Z z.
Proof. intros H. unfold Qnat. rewrite Z2Nat.id by exact H. reflexivity. Qed.

Section GridLoop.

Variables (bound cellSize : Q) (body : Q -> Event).

(** With a positive step the loop stops, and it runs exactly [n] times when
    [n] steps are the first to reach the bound. *)
Lemma gridLoop_exact :
  0 < cellSize ->
  forall (n : nat) (x : Q),
    bound <= x + Qnat n * cellSize ->
    (forall m, n = S m -> x + Qnat m * cellSize < bound) ->
    forall fuel, (n < fuel)%nat ->
      gridLoop fuel x bound cellSize body
      = Some (map body (steps n x cellSize)).
Proof.
  intros Hc n. induction n as [|n IH]; intros x Hub Hlb fuel Hf;
    (destruct fuel as [|fuel]; [lia|]); simpl.
  - destruct (Qlt_le_dec x bound) as [H|H]; [|reflexivity].
    change (Qnat 0) with 0 in Hub. lra.
  - pose proof (Hlb n eq_refl) as Hn.
    pose proof (Qnat_nonneg n) as Hn0.
    assert (Hp : 0 <= Qnat n * cellSize) by (apply Qmult_le_0_compat; lra).
    destruct (Qlt_le_dec x bound) as [H|H]; [|lra].
    rewrite (IH (x + cellSize)).
    + reflexivity.
    + rewrite Qnat_S in Hub. lra.
    + intros m ->. rewrite Qnat_S in Hn. lra.
    + lia.
Qed.

(** With a step that is not positive the bound is never reached. *)
Lemma gridLoop_diverges :
  cellSize <= 0 ->
  forall (fuel : nat) (x : Q),
    x < bound -> gridLoop fuel x bound cellSize body = None.
Proof.
  intros Hc fuel. induction fuel as [|fuel IH]; intros x Hx; simpl.
  - reflexivity.
  - destruct (Qlt_le_dec x bound) as [H|H]; [|lra].
    rewrite IH by lra. reflexivity.
Qed.

(** A loop that starts at or beyond its bound does not run its body. *)
Lemma gridLoop_empty (fuel : nat) (x : Q) :
  bound <= x -> gridLoop (S fuel) x bound cellSize body = Some [].
Proof.
  intros H. simpl. destruct (Qlt_le_dec x bound); [lra|reflexivity].
Qed.

End GridLoop.

Lemma length_steps (n : nat) (x cellSize : Q) :
  List.length (steps n x cellSize) = n.
Proof.
  revert x. induction n as [|n IH]; intros x; simpl; [|rewrite IH]; reflexivity.
Qed.

(** [lineCount] is the iteration count of a loop from 0: the ceiling of
    [bound / cellSize]. *)
Lemma lineCount_spec (bound cellSize : Q) :
  0 < cellSize ->
  bound <= 0 + Qnat (lineCount bound cellSize) * cellSize /\
  (forall m, lineCount bound cellSize = S m ->
             0 + Qnat m * cellSize < bound).
Proof.
  intros Hc. unfold lineCount.
  set (q := bound / cellSize).
  assert (Hq : bound == q * cellSize) by (unfold q; field; lra).
  clearbody q.
  pose proof (Qle_ceiling q) as Hup.
  pose proof (Qceiling_lt q) as Hlo.
  destruct (Z_le_gt_dec (Qceiling q) 0) as [Hz|Hz].
  - assert (E : Z.to_nat (Qceiling q) = 0%nat) by lia.
    rewrite E. split; [|discriminate].
    assert (Hq0 : q <= 0).
    { apply Qle_trans with (inject_Z (Qceiling q)); [exact Hup|].
      change 0 with (inject_Z 0). rewrite <- Zle_Qle. exact Hz. }
    change (Qnat 0) with 0. rewrite Hq.
    assert (0 <= - q * cellSize) by (apply Qmult_le_0_compat; lra).
    lra.
  - split.
    + rewrite Qnat_to_nat by lia. rewrite Hq.
      assert (q * cellSize <= inject_Z (Qceiling q) * cellSize).
      { apply Qmult_le_compat_r; lra. }
      lra.
    + intros m Hm.
      assert (Em : Qnat m == inject_Z (Qceiling q - 1)).
      { unfold Qnat. replace (Z.of_nat m) with (Qceiling q - 1)%Z by lia.
        reflexivity. }
      rewrite Em, Hq.
      assert (inject_Z (Qceiling q - 1) * cellSize < q * cellSize).
      { apply Qmult_lt_compat_r; assumption. }
      lra.
Qed.

Lemma lineCount_comp (b1 b2 cellSize : Q) :
  b1 == b2 -> lineCount b1 cellSize = lineCount b2 cellSize.
Proof. intros H. unfold lineCount. rewrite H. reflexivity. Qed.

Lemma gridLoop_lineCount (bound cellSize : Q) (body : Q -> Event) (fuel : nat) :
  0 < cellSize -> (lineCount bound cellSize < fuel)%nat ->
  gridLoop fuel 0 bound cellSize body
  = Some (map body (steps (lineCount bound cellSize) 0 cellSize)).
Proof.
  intros Hc Hf. destruct (lineCount_spec bound cellSize Hc) as [H1 H2].
  apply gridLoop_exact; assumption.
Qed.

(** ** Grid *)

Lemma drawGrid_unfold (dpr : Q) (gridOptions : option GridOptions.t)
    (fuel : nat) (rect : Rect.t) :
  drawGrid dpr gridOptions fuel rect =
  match gridLoop fuel 0 (scaledWidth dpr rect) (cellSizeOf gridOptions)
          (verticalLine dpr gridOptions rect) with
  | None => None
  | Some vertical =>
      match gridLoop fuel 0 (scaledHeight dpr rect) (cellSizeOf gridOptions)
              (horizontalLine dpr gridOptions rect) with
      | None => None
      | Some horizontal => Some (vertical ++ horizontal)
      end
  end.
Proof. destruct gridOptions; reflexivity. Qed.

Lemma drawGrid_complete (dpr : Q) (gridOptions : option GridOptions.t)
    (rect : Rect.t) (fuel : nat) :
  0 < cellSizeOf gridOptions ->
  (gridFuel dpr gridOptions rect <= fuel)%nat ->
  drawGrid dpr gridOptions fuel rect = Some (gridLines dpr gridOptions rect).
Proof.
  intros Hc Hf. unfold gridFuel in Hf. rewrite drawGrid_unfold.
  rewrite !gridLoop_lineCount by (assumption || lia). reflexivity.
Qed.

Lemma length_gridLines (dpr : Q) (gridOptions : option GridOptions.t)
    (rect : Rect.t) :
  List.length (gridLines dpr gridOptions rect)
  = (lineCount (scaledWidth dpr rect) (cellSizeOf gridOptions)
     + lineCount (scaledHeight dpr rect) (cellSizeOf gridOptions))%nat.
Proof.
  unfold gridLines. rewrite length_app, !length_map, !length_steps.
  reflexivity.
Qed.

(** In exact arithmetic, with a positive cell size both loops of [drawGrid]
    stop after as many iterations as [lineCount] says, whatever the rect;
    with a supplied cell size that is zero or negative and a rect of
    positive width or height the loop bound is never reached.  The second
    half is the same on the source's doubles; the first half is not: there a
    positive step too small for the running sum is absorbed by the
    addition, and a step that is not a binary fraction accumulates
    rounding. *)
Lemma drawGrid_loops_in_exact_arithmetic
    (dpr : Q) (gridOptions : option GridOptions.t) (rect : Rect.t) :
  (0 < cellSizeOf gridOptions ->
   exists enough : nat,
     forall fuel, (enough <= fuel)%nat ->
       exists events,
         drawGrid dpr gridOptions fuel rect = Some events /\
         List.length events
         = (lineCount (scaledWidth dpr rect) (cellSizeOf gridOptions)
            + lineCount (scaledHeight dpr rect) (cellSizeOf gridOptions))%nat)
  /\
  (cellSizeOf gridOptions <= 0 ->
   0 < Rect.width rect \/ 0 < Rect.height rect ->
   forall fuel, drawGrid dpr gridOptions fuel rect = None).
Proof.
  split.
  - intros Hc. exists (gridFuel dpr gridOptions rect). intros fuel Hf.
    exists (gridLines dpr gridOptions rect).
    split; [apply drawGrid_complete; assumption | apply length_gridLines].
  - intros Hc Hrect fuel. rewrite drawGrid_unfold.
    pose proof (DEFAULT_SCALING_pos dpr) as HD.
    destruct (Qlt_le_dec 0 (Rect.width rect)) as [Hw|Hw].
    + rewrite gridLoop_diverges; [reflexivity | assumption |].
      unfold scaledWidth. apply Qmult_lt_0_compat; assumption.
    + destruct Hrect as [Hw'|Hh]; [lra|].
      destruct (gridLoop fuel 0 (scaledWidth dpr rect) _ _); [|reflexivity].
      rewrite gridLoop_diverges; [reflexivity | assumption |].
      unfold scaledHeight. apply Qmult_lt_0_compat; assumption.
Qed.

Lemma drawGrid_loops_in_exact_arithmetic_witness :
  (exists enough : nat,
     forall fuel, (enough <= fuel)%nat ->
       exists events,
         drawGrid 2 (Some (GridOptions.mk true (Some 40) None None)) fuel
                  (Rect.mk 700 700) = Some events /\
         List.length events = 70%nat) /\
  (forall fuel,
      drawGrid 2 (Some (GridOptions.mk true (Some 0) None None)) fuel
               (Rect.mk 700 700) = None).
Proof.
  split.
  - apply (proj1 (drawGrid_loops_in_exact_arithmetic
                    2 (Some (GridOptions.mk true (Some 40) None None))
                    (Rect.mk 700 700))).
    reflexivity.
  - apply (proj2 (drawGrid_loops_in_exact_arithmetic
                    2 (Some (GridOptions.mk true (Some 0) None None))
                    (Rect.mk 700 700))).
    + discriminate.
    + left. reflexivity.
Defined.

(** ** Counting the segments of a render pass *)

Lemma countIf_app (p : Event -> bool) (l1 l2 : list Event) :
  countIf p (l1 ++ l2) = (countIf p l1 + countIf p l2)%nat.
Proof. unfold countIf. rewrite filter_app, length_app. reflexivity. Qed.

Lemma countIf_map_all {A : Type} (p : Event -> bool) (g : A -> Event)
    (xs : list A) :
  (forall x, p (g x) = true) -> countIf p (map g xs) = List.length xs.
Proof.
  intros H. unfold countIf. induction xs as [|x xs IH]; simpl.
  - reflexivity.
  - rewrite H. simpl. rewrite IH. reflexivity.
Qed.

Lemma countIf_map_none {A : Type} (p : Event -> bool) (g : A -> Event)
    (xs : list A) :
  (forall x, p (g x) = false) -> countIf p (map g xs) = 0%nat.
Proof.
  intros H. unfold countIf. induction xs as [|x xs IH]; simpl.
  - reflexivity.
  - rewrite H. exact IH.
Qed.

Lemma Qeq_bool_false (p q : Q) : ~ p == q -> Qeq_bool p q = false.
Proof.
  intros H. destruct (Qeq_bool p q) eqn:E; [|reflexivity].
  apply Qeq_bool_iff in E. contradiction.
Qed.

Lemma Qeq_bool_same (p : Q) : Qeq_bool p p = true.
Proof. apply Qeq_bool_iff. reflexivity. Qed.

Lemma countIf_gridLines (dpr : Q) (gridOptions : option GridOptions.t)
    (rect : Rect.t) :
  0 < Rect.width rect -> 0 < Rect.height rect ->
  countIf isVertical (gridLines dpr gridOptions rect)
  = lineCount (scaledWidth dpr rect) (cellSizeOf gridOptions) /\
  countIf isHorizontal (gridLines dpr gridOptions rect)
  = lineCount (scaledHeight dpr rect) (cellSizeOf gridOptions).
Proof.
  intros Hw Hh. pose proof (DEFAULT_SCALING_pos dpr) as HD.
  assert (HW : 0 < scaledWidth dpr rect)
    by (apply Qmult_lt_0_compat; assumption).
  assert (HH : 0 < scaledHeight dpr rect)
    by (apply Qmult_lt_0_compat; assumption).
  unfold gridLines. rewrite !countIf_app. split.
  - rewrite countIf_map_all, countIf_map_none, length_steps; [lia| |].
    + intros y. simpl. apply Qeq_bool_false. lra.
    + intros x. simpl. apply Qeq_bool_same.
  - rewrite countIf_map_none, countIf_map_all, length_steps; [lia| |].
    + intros y. simpl. apply Qeq_bool_same.
    + intros x. simpl. apply Qeq_bool_false. lra.
Qed.

(** The loop variable stays below the bound. *)
Lemma steps_below (bound cellSize : Q) :
  0 < cellSize ->
  forall (n : nat) (x : Q),
    0 <= x ->
    (forall m, n = S m -> x + Qnat m * cellSize < bound) ->
    Forall (fun v => 0 <= v < bound) (steps n x cellSize).
Proof.
  intros Hc n. induction n as [|n IH]; intros x Hx Hlb; simpl.
  - constructor.
  - pose proof (Hlb n eq_refl) as Hn.
    pose proof (Qnat_nonneg n) as Hn0.
    assert (Hp : 0 <= Qnat n * cellSize) by (apply Qmult_le_0_compat; lra).
    constructor; [lra|].
    apply IH; [lra|]. intros m ->. rewrite Qnat_S in Hn. lra.
Qed.

Lemma gridLines_span (dpr : Q) (gridOptions : option GridOptions.t)
    (rect : Rect.t) :
  0 < cellSizeOf gridOptions ->
  Forall (spans (scaledWidth dpr rect) (scaledHeight dpr rect))
         (gridLines dpr gridOptions rect).
Proof.
  intros Hc. unfold gridLines. apply Forall_app. split.
  - apply Forall_map.
    eapply Forall_impl;
      [|apply (steps_below (scaledWidth dpr rect) _ Hc); [lra|];
        apply (lineCount_spec _ _ Hc)].
    intros x Hx. simpl. left. repeat split; try reflexivity; apply Hx.
  - apply Forall_map.
    eapply Forall_impl;
      [|apply (steps_below (scaledHeight dpr rect) _ Hc); [lra|];
        apply (lineCount_spec _ _ Hc)].
    intros x Hx. simpl. right. repeat split; try reflexivity; apply Hx.
Qed.

(** ** The drawables loop *)

Lemma drawObjects_all (objs : list Drawable.t) :
  Forall (fun obj => hasDraw obj = true) objs ->
  drawObjects objs = (map DrawCall objs, Returned).
Proof.
  induction 1 as [|obj objs Hobj _ IH]; simpl.
  - reflexivity.
  - unfold hasDraw in Hobj. rewrite Hobj, IH. reflexivity.
Qed.

Lemma drawObjects_missing (before after : list Drawable.t) (obj : Drawable.t) :
  Forall (fun o => hasDraw o = true) before ->
  hasDraw obj = false ->
  drawObjects (before ++ obj :: after)
  = (map DrawCall before,
     Thrown "object passed into InteractableCanvas has no draw function").
Proof.
  intros Hb Hobj. induction Hb as [|o before Ho _ IH]; simpl.
  - unfold hasDraw in Hobj. rewrite Hobj. reflexivity.
  - unfold hasDraw in Ho. rewrite Ho, IH. reflexivity.
Qed.

Lemma drawObjects_no_lines (p : Event -> bool) (objs : list Drawable.t) :
  (forall obj, p (DrawCall obj) = false) ->
  countIf p (fst (drawObjects objs)) = 0%nat.
Proof.
  intros Hp. induction objs as [|obj objs IH]; simpl.
  - reflexivity.
  - destruct (isFunction (Drawable.draw obj)); [|reflexivity].
    destruct (drawObjects objs) as [events outcome]. simpl in *.
    unfold countIf in *. simpl. rewrite Hp. exact IH.
Qed.

Lemma draw_unfold (dpr : Q) (gridOptions : option GridOptions.t)
    (drawables : option (list Drawable.t)) (fuel : nat) (width height : Z)
    (rect : Rect.t) :
  draw dpr gridOptions drawables fuel width height rect =
  match gridPhase dpr gridOptions fuel rect with
  | None => None
  | Some lines =>
      match drawables with
      | None => Some (clearEvent width height :: lines, Returned)
      | Some objs =>
          Some (clearEvent width height :: lines ++ fst (drawObjects objs),
                snd (drawObjects objs))
      end
  end.
Proof.
  unfold draw, gridPhase, clearEvent.
  destruct gridOptions as [o|]; [destruct (GridOptions.draw o)|];
    try destruct (drawGrid dpr (Some o) fuel rect);
    destruct drawables as [objs|]; try reflexivity;
    destruct (drawObjects objs); reflexivity.
Qed.

(** The grid phase returns once the fuel covers both loops, provided the grid
    is off or the cell size positive. *)
Lemma gridPhase_returns (dpr : Q) (gridOptions : option GridOptions.t)
    (rect : Rect.t) (fuel : nat) :
  gridEnabled gridOptions = false \/ 0 < cellSizeOf gridOptions ->
  (gridFuel dpr gridOptions rect <= fuel)%nat ->
  gridPhase dpr gridOptions fuel rect
  = Some (if gridEnabled gridOptions then gridLines dpr gridOptions rect
          else []).
Proof.
  intros Hg Hf. unfold gridPhase, gridEnabled in *.
  destruct gridOptions as [o|]; [|reflexivity].
  destruct (GridOptions.draw o); [|reflexivity].
  destruct Hg as [Hg|Hg]; [discriminate|].
  apply drawGrid_complete; assumption.
Qed.

(** A list with a drawable that lacks [draw] splits at the first such one. *)
Lemma first_without_draw (objs : list Drawable.t) :
  Exists (fun o => hasDraw o = false) objs ->
  exists (before after : list Drawable.t) (obj : Drawable.t),
    objs = before ++ obj :: after /\
    Forall (fun o => hasDraw o = true) before /\
    Drawable.draw obj = None.
Proof.
  induction objs as [|o objs IH]; intros H.
  - inversion H.
  - destruct (hasDraw o) eqn:Ho.
    + assert (H' : Exists (fun o => hasDraw o = false) objs).
      { inversion H as [? ? Hhd | ? ? Htl]; subst; [congruence | exact Htl]. }
      destruct (IH H') as (before & after & obj & -> & Hb & Hobj).
      exists (o :: before), after, obj. auto.
    + exists [], objs, o. repeat split; [constructor|].
      unfold hasDraw in Ho. destruct (Drawable.draw o); [discriminate|].
      reflexivity.
Qed.

(** C8. When a drawable without a [draw] function is in the list, the render
    pass throws: the drawables before it have been drawn in list order, it
    and the ones after it have not, and the error is the outcome of the
    render call itself.  When every drawable has a [draw] function, the
    render pass draws each in list order and returns.  (The grid phase that
    precedes the loop must return: the grid is off or its cell size is
    positive.) *)
Theorem missing_draw_is_fatal
    (dpr : Q) (gridOptions : option GridOptions.t) (width height : Z)
    (rect : Rect.t) (fuel : nat) :
  gridEnabled gridOptions = false \/ 0 < cellSizeOf gridOptions ->
  (gridFuel dpr gridOptions rect <= fuel)%nat ->
  (forall (before after : list Drawable.t) (obj : Drawable.t),
      Forall (fun o => hasDraw o = true) before ->
      Drawable.draw obj = None ->
      draw dpr gridOptions (Some (before ++ obj :: after))
           fuel width height rect
      = Some (clearEvent width height
                :: gridTrace dpr gridOptions rect ++ map DrawCall before,
              Thrown "object passed into InteractableCanvas has no draw function"))
  /\
  (forall objs : list Drawable.t,
      Exists (fun o => hasDraw o = false) objs ->
      exists events : list Event,
        draw dpr gridOptions (Some objs) fuel width height rect
        = Some (events,
                Thrown "object passed into InteractableCanvas has no draw function"))
  /\
  (forall objs : list Drawable.t,
      Forall (fun o => hasDraw o = true) objs ->
      draw dpr gridOptions (Some objs) fuel width height rect
      = Some (clearEvent width height
                :: gridTrace dpr gridOptions rect ++ map DrawCall objs,
              Returned)).
Proof.
  intros Hg Hf.
  assert (Hthrow :
    forall (before after : list Drawable.t) (obj : Drawable.t),
      Forall (fun o => hasDraw o = true) before ->
      Drawable.draw obj = None ->
      draw dpr gridOptions (Some (before ++ obj :: after))
           fuel width height rect
      = Some (clearEvent width height
                :: gridTrace dpr gridOptions rect ++ map DrawCall before,
              Thrown "object passed into InteractableCanvas has no draw function")).
  { intros before after obj Hb Hobj.
    rewrite draw_unfold, (gridPhase_returns _ _ _ _ Hg Hf).
    rewrite drawObjects_missing; [reflexivity | exact Hb |].
    unfold hasDraw. rewrite Hobj. reflexivity. }
  split; [exact Hthrow|]. split.
  - intros objs Hex.
    destruct (first_without_draw objs Hex)
      as (before & after & obj & -> & Hb & Hobj).
    eexists. apply Hthrow; assumption.
  - intros objs Hobjs.
    rewrite draw_unfold, (gridPhase_returns _ _ _ _ Hg Hf).
    rewrite drawObjects_all by exact Hobjs. reflexivity.
Qed.

Lemma missing_draw_is_fatal_witness :
  let circle := Drawable.mk 1 (Some hostFunction) None None in
  let broken := Drawable.mk 2 None None None in
  let label := Drawable.mk 3 (Some hostFunction) None None in
  draw 2 None (Some [circle; broken; label]) 36 1400 1400 (Rect.mk 700 700)
  = Some ([clearEvent 1400 1400; DrawCall circle],
          Thrown "object passed into InteractableCanvas has no draw function")
  /\
  draw 2 None (Some [circle; label]) 36 1400 1400 (Rect.mk 700 700)
  = Some ([clearEvent 1400 1400; DrawCall circle; DrawCall label], Returned).
Proof.
  intros circle broken label.
  destruct (missing_draw_is_fatal 2 None 1400 1400 (Rect.mk 700 700) 36)
    as [Hthrow [_ Hreturn]]; [left; reflexivity | apply Nat.le_refl |].
  split.
  - apply (Hthrow [circle] [label] broken); [|reflexivity].
    repeat constructor.
  - apply (Hreturn [circle; label]). repeat constructor.
Defined.

Lemma spans_comp (w w' h h' : Q) (ev : Event) :
  w == w' -> h == h' -> spans w h ev -> spans w' h' ev.
Proof.
  intros Hw Hh. destruct ev as [| from to lw lc |]; simpl; try tauto.
  rewrite Hw, Hh. tauto.
Qed.

(** C9 (as amended). With [gridOptions = {draw: true, cellSize: 40}] on a
    700 x 700 rect and density factor 2, one render pass strokes exactly
    ceil(1400 / 40) = 35 vertical and 35 horizontal segments, each spanning
    the 1400 x 1400 backing store. *)
Theorem grid_line_count
    (dpr : Q) (lineWidth : option Q) (lineColor : option string)
    (drawables : option (list Drawable.t)) (width height : Z) (fuel : nat) :
  DEFAULT_SCALING dpr == 2 ->
  (36 <= fuel)%nat ->
  exists (events : list Event) (outcome : Outcome),
    draw dpr (Some (GridOptions.mk true (Some 40) lineWidth lineColor))
         drawables fuel width height (Rect.mk 700 700)
    = Some (events, outcome) /\
    countIf isVertical events = Z.to_nat (Qceiling (1400 / 40)) /\
    countIf isHorizontal events = Z.to_nat (Qceiling (1400 / 40)) /\
    Z.to_nat (Qceiling (1400 / 40)) = 35%nat /\
    Forall (spans 1400 1400) events.
Proof.
  intros HD Hf.
  set (go := Some (GridOptions.mk true (Some 40) lineWidth lineColor)).
  set (rect := Rect.mk 700 700).
  assert (HW : scaledWidth dpr rect == 1400)
    by (unfold scaledWidth; simpl; rewrite HD; reflexivity).
  assert (HH : scaledHeight dpr rect == 1400)
    by (unfold scaledHeight; simpl; rewrite HD; reflexivity).
  assert (Hc : 0 < cellSizeOf go) by reflexivity.
  assert (Hv : lineCount (scaledWidth dpr rect) (cellSizeOf go) = 35%nat)
    by (rewrite (lineCount_comp _ _ _ HW); reflexivity).
  assert (Hh : lineCount (scaledHeight dpr rect) (cellSizeOf go) = 35%nat)
    by (rewrite (lineCount_comp _ _ _ HH); reflexivity).
  assert (Hfuel : (gridFuel dpr go rect <= fuel)%nat)
    by (unfold gridFuel; rewrite Hv, Hh; simpl; lia).
  destruct (countIf_gridLines dpr go rect) as [Cv Ch]; try reflexivity.
  pose proof (gridLines_span dpr go rect Hc) as Hs.
  assert (Hgrid : gridPhase dpr go fuel rect = Some (gridLines dpr go rect)).
  { rewrite gridPhase_returns; [reflexivity | right; exact Hc | exact Hfuel]. }
  assert (Hs' : Forall (spans 1400 1400) (gridLines dpr go rect)).
  { eapply Forall_impl; [|exact Hs].
    intros ev. apply spans_comp; assumption. }
  rewrite draw_unfold, Hgrid.
  destruct drawables as [objs|].
  - do 2 eexists. split; [reflexivity|].
    change (clearEvent width height
              :: gridLines dpr go rect ++ fst (drawObjects objs))
      with ([clearEvent width height]
              ++ gridLines dpr go rect ++ fst (drawObjects objs)).
    rewrite !countIf_app, Cv, Ch, Hv, Hh.
    rewrite !drawObjects_no_lines by reflexivity.
    repeat split; try reflexivity.
    apply Forall_app; split; [repeat constructor|].
    apply Forall_app; split; [exact Hs'|].
    clear. induction objs as [|obj objs IH]; simpl; [constructor|].
    destruct (isFunction (Drawable.draw obj)); [|constructor].
    destruct (drawObjects objs); simpl in *.
    constructor; [exact I | exact IH].
  - do 2 eexists. split; [reflexivity|].
    change (clearEvent width height :: gridLines dpr go rect)
      with ([clearEvent width height] ++ gridLines dpr go rect).
    rewrite !countIf_app, Cv, Ch, Hv, Hh.
    repeat split; try reflexivity.
    apply Forall_app; split; [repeat constructor | exact Hs'].
Qed.

Lemma grid_line_count_witness :
  exists (events : list Event) (outcome : Outcome),
    draw 2 (Some (GridOptions.mk true (Some 40) None None))
         None 36 1400 1400 (Rect.mk 700 700)
    = Some (events, outcome) /\
    countIf isVertical events = Z.to_nat (Qceiling (1400 / 40)) /\
    countIf isHorizontal events = Z.to_nat (Qceiling (1400 / 40)) /\
    Z.to_nat (Qceiling (1400 / 40)) = 35%nat /\
    Forall (spans 1400 1400) events.
Proof.
  apply (grid_line_count 2 None None None 1400 1400 36).
  - reflexivity.
  - apply Nat.le_refl.
Defined.

(** C9 as stated fails: the pass strokes 35 vertical and 35 horizontal
    segments, one fewer than ceil(1400 / 40) + 1 = 36; the loops stop before
    the segment at x = 1400 (y = 1400), because the loop condition is a
    strict comparison. *)
Lemma grid_line_count_is_not_ceiling_plus_one :
  exists events : list Event,
    draw 2 (Some (GridOptions.mk true (Some 40) None None))
         None 100 1400 1400 (Rect.mk 700 700)
    = Some (events, Returned) /\
    countIf isVertical events = 35%nat /\
    countIf isHorizontal events = 35%nat /\
    Z.to_nat (Qceiling (1400 / 40) + 1) = 36%nat.
Proof.
  eexists. split; [reflexivity|]. repeat split; reflexivity.
Qed.

(** ** Wheel zoom *)

Lemma Qltb_true (p q : Q) : p < q -> Qltb p q = true.
Proof. intros H. unfold Qltb. destruct (Qlt_le_dec p q); [reflexivity|lra]. Qed.

Lemma Qltb_false (p q : Q) : q <= p -> Qltb p q = false.
Proof. intros H. unfold Qltb. destruct (Qlt_le_dec p q); [lra|reflexivity]. Qed.

Lemma maxScaleValue_default : maxScaleValue None = 5.
Proof. reflexivity. Qed.

Lemma clampScale_reduces (s zoom : Q) :
  1 < s -> 0 < zoom < 1 -> clampScale (s * zoom) < s.
Proof.
  intros Hs Hz. unfold clampScale.
  destruct (Qlt_le_dec (s * zoom) 1); [exact Hs|].
  assert (0 < s * (1 - zoom)) by (apply Qmult_lt_0_compat; lra).
  lra.
Qed.

Lemma clampScale_at_most_1 (s zoom : Q) :
  s <= 1 -> 0 < zoom < 1 -> clampScale (s * zoom) = 1.
Proof.
  intros Hs Hz. unfold clampScale.
  destruct (Qlt_le_dec (s * zoom) 1) as [_|H]; [reflexivity|].
  exfalso.
  destruct (Qlt_le_dec 0 s) as [Hp|Hn].
  - assert (0 < s * (1 - zoom)) by (apply Qmult_lt_0_compat; lra). lra.
  - assert (0 <= (- s) * zoom) by (apply Qmult_le_0_compat; lra). lra.
Qed.

(** C5 (as amended).  While the horizontal scale exceeds [maxScaleValue]
    (the [maxZoom] prop, 5 by default), a wheel event with negative [deltaY]
    returns before anything is changed.  A wheel event with [deltaY] zero or
    positive at such a scale is not blocked: whenever the scale is not 0 the
    handler maps the pointer, composes the zoom by 0.98 about the mapped
    point, clamps and redraws, so the new scale is the old one times 0.98,
    raised to 1 if below.  That is lower than before when the old scale is
    above 1, and it is 1, hence not lower, when the old scale is 1 or
    less. *)
Theorem max_zoom_soft_cap
    (dpr : Q) (maxZoom : option Q) (rect : Rect.t) (s : State)
    (ev : WheelEvent.t) :
  maxScaleValue maxZoom < DOMMatrix.a (transform s) ->
  (WheelEvent.deltaY ev < 0 ->
   mousewheel dpr maxZoom rect s ev = Some (s, []))
  /\
  (0 <= WheelEvent.deltaY ev ->
   ~ DOMMatrix.a (transform s) == 0 ->
   exists pt : Point.t,
     getTransformedPoint dpr (transform s)
       (WheelEvent.offsetX ev) (WheelEvent.offsetY ev) = Some pt /\
     let s' := mkState (enforceBounds dpr rect (zoomAbout (transform s) pt 0.98))
                       (draggingObject s) (dragStart s) (cursor s) in
     mousewheel dpr maxZoom rect s ev = Some (s', [Redraw]) /\
     DOMMatrix.a (transform s') = clampScale (DOMMatrix.a (transform s) * 0.98) /\
     (1 < DOMMatrix.a (transform s) ->
      DOMMatrix.a (transform s') < DOMMatrix.a (transform s)) /\
     (DOMMatrix.a (transform s) <= 1 ->
      DOMMatrix.a (transform s') = 1)).
Proof.
  intros Hmax. split.
  - intros Hd. unfold mousewheel.
    rewrite (Qltb_true _ _ Hd), (Qltb_true _ _ Hmax). reflexivity.
  - intros Hd Hn.
    eexists. split; [apply getTransformedPoint_some; exact Hn|].
    cbv zeta. unfold mousewheel.
    rewrite (Qltb_false _ _ Hd). simpl andb. cbv iota.
    rewrite (getTransformedPoint_some _ _ _ _ Hn).
    split; [reflexivity|]. split; [reflexivity|].
    cbn [transform]. rewrite enforceBounds_unfold, zoomAbout_fields.
    cbn [DOMMatrix.a]. split.
    + intros Ha. apply clampScale_reduces; [exact Ha|]. split; reflexivity.
    + intros Ha. apply clampScale_at_most_1; [exact Ha|]. split; reflexivity.
Qed.

Lemma max_zoom_soft_cap_witness :
  let s := mkState (DOMMatrix.mk 5.01 0 0 5.01 0 0) None None "" in
  let t := mkState (DOMMatrix.mk 1 0 0 1 0 0) None None "" in
  (mousewheel 2 (Some 5) (Rect.mk 700 700) s (WheelEvent.mk (-100) 350 350)
   = Some (s, [])
   /\
   exists pt : Point.t,
     getTransformedPoint 2 (transform s) 350 350 = Some pt /\
     let s' := mkState (enforceBounds 2 (Rect.mk 700 700)
                          (zoomAbout (transform s) pt 0.98))
                       (draggingObject s) (dragStart s) (cursor s) in
     mousewheel 2 (Some 5) (Rect.mk 700 700) s (WheelEvent.mk 100 350 350)
     = Some (s', [Redraw]) /\
     DOMMatrix.a (transform s') = clampScale (DOMMatrix.a (transform s) * 0.98) /\
     DOMMatrix.a (transform s') < DOMMatrix.a (transform s))
  /\
  (exists pt : Point.t,
     getTransformedPoint 2 (transform t) 350 350 = Some pt /\
     let t' := mkState (enforceBounds 2 (Rect.mk 700 700)
                          (zoomAbout (transform t) pt 0.98))
                       (draggingObject t) (dragStart t) (cursor t) in
     mousewheel 2 (Some 0.5) (Rect.mk 700 700) t (WheelEvent.mk 100 350 350)
     = Some (t', [Redraw]) /\
     DOMMatrix.a (transform t') = 1).
Proof.
  intros s t. split; [split|].
  - apply (proj1 (max_zoom_soft_cap 2 (Some 5) (Rect.mk 700 700) s
                    (WheelEvent.mk (-100) 350 350) eq_refl)).
    reflexivity.
  - destruct (proj2 (max_zoom_soft_cap 2 (Some 5) (Rect.mk 700 700) s
                       (WheelEvent.mk 100 350 350) eq_refl))
      as (pt & Hpt & Hw & Ha & Hlt & _).
    + discriminate.
    + discriminate.
    + exists pt. split; [exact Hpt|]. split; [exact Hw|].
      split; [exact Ha|]. apply Hlt. reflexivity.
  - destruct (proj2 (max_zoom_soft_cap 2 (Some 0.5) (Rect.mk 700 700) t
                       (WheelEvent.mk 100 350 350) eq_refl))
      as (pt & Hpt & Hw & _ & _ & Hone).
    + discriminate.
    + discriminate.
    + exists pt. split; [exact Hpt|]. split; [exact Hw|].
      apply Hone. discriminate.
Defined.

(** The zoom-out half of C5 as stated fails when [maxZoom] is below the
    minimum scale 1, which [enforceBounds] keeps on purpose.  With
    [maxZoom = 0.5] on the 700 x 700 canvas, thirty-five zoom-out events
    after mounting bring the scale to 1, which exceeds [maxScaleValue]; one
    more zoom-out event is handled and leaves the scale at 1. *)
Lemma zoom_out_at_minimum_scale_keeps_scale :
  let rect := Rect.mk 700 700 in
  let zoomOut := WheelEvent.mk 100 350 350 in
  exists (s s' : State) (effects : list Effect),
    run 2 None (Some 0.5) rect (mounted 2 rect) (repeat (OnWheel zoomOut) 35)
    = Some (s, effects) /\
    maxScaleValue (Some 0.5) < DOMMatrix.a (transform s) /\
    0 <= WheelEvent.deltaY zoomOut /\
    mousewheel 2 (Some 0.5) rect s zoomOut = Some (s', [Redraw]) /\
    DOMMatrix.a (transform s') == DOMMatrix.a (transform s).
Proof.
  intros rect zoomOut. do 3 eexists.
  split; [vm_compute; reflexivity|].
  split; [reflexivity|]. split; [discriminate|].
  split; [vm_compute; reflexivity|]. reflexivity.
Qed.

(** ** Drag and pan *)

Lemma enforceBounds_scale_nonzero (dpr : Q) (rect : Rect.t) (T : DOMMatrix.t) :
  ~ DOMMatrix.a (enforceBounds dpr rect T) == 0.
Proof.
  rewrite enforceBounds_unfold. simpl.
  pose proof (clampScale_ge_1 (DOMMatrix.a T)). lra.
Qed.

Section Gesture.

Variables (dpr : Q) (drawables : option (list Drawable.t))
          (maxZoom : option Q) (rect : Rect.t).

(** While an object is dragged, pointer moves call its [move] with the
    mapped point and leave the state as it is. *)
Lemma run_dragging (obj : Drawable.t) (T : DOMMatrix.t)
    (start : option Point.t) (cur : string) (moves : list MouseEvent.t) :
  ~ DOMMatrix.a T == 0 ->
  isFunction (Drawable.move obj) = true ->
  run dpr drawables maxZoom rect (mkState T (Some obj) start cur)
      (map OnMouseMove moves)
  = Some (mkState T (Some obj) start cur,
          flat_map (fun ev =>
                      [MoveCall obj (logicalPoint dpr T (MouseEvent.offsetX ev)
                                                        (MouseEvent.offsetY ev));
                       Redraw]) moves).
Proof.
  intros Ha Hmove. induction moves as [|ev moves IH]; simpl.
  - reflexivity.
  - unfold mousemove. cbn [transform draggingObject].
    rewrite (getTransformedPoint_some _ _ _ _ Ha), Hmove.
    rewrite IH. reflexivity.
Qed.

(** While the canvas is panned, each pointer move replaces the transform by
    [panStep] of it and calls nothing but the render pass. *)
Lemma run_panning (anchor : Point.t) (cur : string)
    (moves : list MouseEvent.t) :
  forall T : DOMMatrix.t,
    ~ DOMMatrix.a T == 0 ->
    run dpr drawables maxZoom rect (mkState T None (Some anchor) cur)
        (map OnMouseMove moves)
    = Some (mkState (fold_left (panStep dpr rect anchor) moves T)
                    None (Some anchor) cur,
            map (fun _ => Redraw) moves).
Proof.
  induction moves as [|ev moves IH]; intros T Ha; simpl.
  - reflexivity.
  - unfold mousemove. cbn [transform draggingObject dragStart cursor].
    rewrite (getTransformedPoint_some _ _ _ _ Ha).
    fold (logicalPoint dpr T (MouseEvent.offsetX ev) (MouseEvent.offsetY ev)).
    fold (panStep dpr rect anchor T ev).
    rewrite IH; [reflexivity|].
    unfold panStep. apply enforceBounds_scale_nonzero.
Qed.

End Gesture.

(** A primary-button pointer-down whose hit-tested drawable has a [move]
    function puts the controller in [DraggingObject], whatever the state
    before; every pointer-move that follows calls that drawable's [move]
    with the mapped logical point and leaves the transform as it was.  A
    primary-button pointer-down that hits no such drawable, while no
    drawable is being dragged, puts the controller in [Panning] and
    remembers the logical anchor; every pointer-move that follows replaces
    the transform by [enforceBounds] of its translation by the current
    logical point minus the anchor, and calls no drawable's [move]. *)
Theorem drag_vs_pan_dispatch
    (dpr : Q) (drawables : option (list Drawable.t)) (maxZoom : option Q)
    (rect : Rect.t) (s : State) (down : MouseEvent.t) (pt : Point.t)
    (moves : list MouseEvent.t) :
  MouseEvent.button down = 0%Z ->
  getTransformedPoint dpr (transform s)
    (MouseEvent.offsetX down) (MouseEvent.offsetY down) = Some pt ->
  (forall obj : Drawable.t,
      getObjectAt drawables pt = Some obj ->
      isFunction (Drawable.move obj) = true ->
      exists s1 s2 : State,
        mousedown dpr drawables s down = Some (s1, []) /\
        mode s1 = DraggingObject /\
        draggingObject s1 = Some obj /\
        transform s1 = transform s /\
        run dpr drawables maxZoom rect s1 (map OnMouseMove moves)
        = Some (s2,
                flat_map
                  (fun ev =>
                     [MoveCall obj
                        (logicalPoint dpr (transform s)
                           (MouseEvent.offsetX ev) (MouseEvent.offsetY ev));
                      Redraw]) moves) /\
        transform s2 = transform s /\
        mode s2 = DraggingObject /\
        draggingObject s2 = Some obj)
  /\
  (getObjectAt drawables pt = None \/
   (exists obj, getObjectAt drawables pt = Some obj /\
                Drawable.move obj = None) ->
   draggingObject s = None ->
   exists s1 s2 : State,
     mousedown dpr drawables s down = Some (s1, []) /\
     mode s1 = Panning /\
     dragStart s1 = Some pt /\
     transform s1 = transform s /\
     run dpr drawables maxZoom rect s1 (map OnMouseMove moves)
     = Some (s2, map (fun _ => Redraw) moves) /\
     transform s2 = fold_left (panStep dpr rect pt) moves (transform s) /\
     mode s2 = Panning /\
     dragStart s2 = Some pt).
Proof.
  intros Hbutton Hpt.
  pose proof (getTransformedPoint_inv _ _ _ _ _ Hpt) as (Ha & _ & _).
  split.
  - intros obj Hhit Hmove.
    do 2 eexists. split.
    { unfold mousedown. rewrite Hbutton, Hpt, Hhit, Hmove. reflexivity. }
    split; [reflexivity|]. split; [reflexivity|]. split; [reflexivity|].
    split; [apply run_dragging; assumption|].
    repeat split; reflexivity.
  - intros Hmiss Hidle.
    assert (Hdown : mousedown dpr drawables s down
                    = Some (mkState (transform s) (draggingObject s)
                                    (Some pt) "grabbing", [])).
    { unfold mousedown. rewrite Hbutton, Hpt. simpl negb. cbv iota.
      destruct Hmiss as [-> | (obj & -> & Hmove)]; [reflexivity|].
      rewrite Hmove. reflexivity. }
    rewrite Hidle in Hdown.
    do 2 eexists. split; [exact Hdown|].
    split; [reflexivity|]. split; [reflexivity|]. split; [reflexivity|].
    split; [apply run_panning; assumption|].
    repeat split; reflexivity.
Qed.

Lemma drag_vs_pan_dispatch_witness :
  let rect := Rect.mk 700 700 in
  let s := mounted 2 rect in
  let moves := [MouseEvent.mk 0 20 30; MouseEvent.mk 0 40 50] in
  (exists s1 s2 : State,
      mousedown 2 (Some [box]) s (MouseEvent.mk 0 5 5) = Some (s1, []) /\
      mode s1 = DraggingObject /\
      draggingObject s1 = Some box /\
      transform s1 = transform s /\
      run 2 (Some [box]) None rect s1 (map OnMouseMove moves)
      = Some (s2,
              flat_map
                (fun ev =>
                   [MoveCall box
                      (logicalPoint 2 (transform s)
                         (MouseEvent.offsetX ev) (MouseEvent.offsetY ev));
                    Redraw]) moves) /\
      transform s2 = transform s /\
      mode s2 = DraggingObject /\
      draggingObject s2 = Some box)
  /\
  (exists s1 s2 : State,
      mousedown 2 (Some [box]) s (MouseEvent.mk 0 300 300) = Some (s1, []) /\
      mode s1 = Panning /\
      dragStart s1 = Some (logicalPoint 2 (transform s) 300 300) /\
      transform s1 = transform s /\
      run 2 (Some [box]) None rect s1 (map OnMouseMove moves)
      = Some (s2, map (fun _ => Redraw) moves) /\
      transform s2
      = fold_left (panStep 2 rect (logicalPoint 2 (transform s) 300 300))
                  moves (transform s) /\
      mode s2 = Panning /\
      dragStart s2 = Some (logicalPoint 2 (transform s) 300 300)).
Proof.
  intros rect s moves. split.
  - apply (proj1 (drag_vs_pan_dispatch 2 (Some [box]) None rect s
                    (MouseEvent.mk 0 5 5) (logicalPoint 2 (transform s) 5 5)
                    moves eq_refl eq_refl) box); reflexivity.
  - apply (proj2 (drag_vs_pan_dispatch 2 (Some [box]) None rect s
                    (MouseEvent.mk 0 300 300)
                    (logicalPoint 2 (transform s) 300 300)
                    moves eq_refl eq_refl)).
    + left. reflexivity.
    + reflexivity.
Defined.

(** C6 fails on the code when a drawable is already being dragged.  The
    [else] branch of the pointer-down handler, which the source comments
    with [Otherwise, we want to pan the canvas], stores the anchor but
    leaves [draggingObject] set, and the pointer-move handler tests
    [draggingObject] first.  On the mounted 700 x 700 canvas with the box as
    only drawable: after a primary pointer-down on the box whose pointer-up
    never arrives, a primary pointer-down on empty space hits nothing and
    remembers its anchor, yet the controller is in [DraggingObject], not in
    [Panning]; the next pointer-move calls the box's [move] and leaves the
    transform as it was. *)
Lemma pointer_down_on_empty_space_while_dragging :
  let rect := Rect.mk 700 700 in
  let onBox := MouseEvent.mk 0 5 5 in
  let onEmpty := MouseEvent.mk 0 300 300 in
  let next := MouseEvent.mk 0 310 310 in
  exists (s1 s2 : State) (pt pt' : Point.t),
    run 2 (Some [box]) None rect (mounted 2 rect) [OnMouseDown onBox]
    = Some (s1, []) /\
    getTransformedPoint 2 (transform s1) 300 300 = Some pt /\
    getObjectAt (Some [box]) pt = None /\
    mousedown 2 (Some [box]) s1 onEmpty = Some (s2, []) /\
    dragStart s2 = Some pt /\
    mode s2 = DraggingObject /\
    mode s2 <> Panning /\
    getTransformedPoint 2 (transform s2) 310 310 = Some pt' /\
    mousemove 2 rect s2 next = Some (s2, [MoveCall box pt'; Redraw]) /\
    transform s2 = transform (mounted 2 rect).
Proof.
  intros rect onBox onEmpty next. do 4 eexists.
  split; [reflexivity|]. split; [reflexivity|]. split; [reflexivity|].
  split; [reflexivity|]. split; [reflexivity|]. split; [reflexivity|].
  split; [discriminate|]. split; [reflexivity|]. split; reflexivity.
Qed.

(** ** What holds in every state the component reaches *)

Lemma clampScale_comp (p q : Q) : p == q -> clampScale p == clampScale q.
Proof.
  intros H. unfold clampScale.
  destruct (Qlt_le_dec p 1), (Qlt_le_dec q 1); lra.
Qed.

Lemma enforceBounds_uniform (dpr : Q) (rect : Rect.t) (T : DOMMatrix.t) :
  uniform T -> uniform (enforceBounds dpr rect T).
Proof.
  intros (Hb & Hc & Had). rewrite enforceBounds_unfold.
  unfold uniform. simpl. auto using clampScale_comp.
Qed.

Lemma translate_uniform (T : DOMMatrix.t) (tx ty : Q) :
  uniform T -> uniform (Ctx.translate T tx ty).
Proof. intros H. exact H. Qed.

Section Invariant.

Variables (dpr : Q) (drawables : option (list Drawable.t))
          (maxZoom : option Q) (rect : Rect.t).

Lemma enforced_invariant (T : DOMMatrix.t) (obj : option Drawable.t)
    (start : option Point.t) (cur : string) :
  uniform T ->
  (forall o, obj = Some o -> isFunction (Drawable.move o) = true) ->
  invariant (mkState (enforceBounds dpr rect T) obj start cur).
Proof.
  intros HT Hobj. split; [|split]; cbn [transform draggingObject].
  - apply enforceBounds_uniform, HT.
  - rewrite enforceBounds_unfold. simpl. apply clampScale_ge_1.
  - exact Hobj.
Qed.

Lemma mounted_invariant : invariant (mounted dpr rect).
Proof.
  unfold mounted, scaleCanvas. apply enforced_invariant.
  - unfold uniform. simpl. repeat split; ring.
  - discriminate.
Qed.

(** A handler that keeps the transform keeps the invariant, as long as the
    drawable it drags can be moved. *)
Lemma same_transform_invariant (s : State) (obj : option Drawable.t)
    (start : option Point.t) (cur : string) :
  invariant s ->
  (forall o, obj = Some o -> isFunction (Drawable.move o) = true) ->
  invariant (mkState (transform s) obj start cur).
Proof.
  intros (Hu & Ha & _) Hobj. split; [|split]; assumption.
Qed.

Lemma handle_invariant (s s' : State) (i : Input) (effects : list Effect) :
  invariant s ->
  handle dpr drawables maxZoom rect s i = Some (s', effects) ->
  invariant s'.
Proof.
  intros Hinv H. pose proof Hinv as (Hu & Ha & Hobj).
  destruct i as [ev|ev|ev|]; simpl in H.
  - unfold mousewheel in H.
    destruct (Qltb (WheelEvent.deltaY ev) 0 && _).
    + injection H as <- _. exact Hinv.
    + destruct (getTransformedPoint dpr (transform s) _ _) as [pt|];
        [|discriminate].
      injection H as <- _.
      apply enforced_invariant; [apply zoomAbout_uniform, Hu | exact Hobj].
  - unfold mousedown in H.
    destruct (negb _).
    + injection H as <- _. exact Hinv.
    + destruct (getTransformedPoint dpr (transform s) _ _) as [pt|];
        [|discriminate].
      destruct (getObjectAt drawables pt) as [obj|].
      * destruct (isFunction (Drawable.move obj)) eqn:Hmove;
          injection H as <- _; apply same_transform_invariant;
          try assumption.
        intros o [= <-]. exact Hmove.
      * injection H as <- _. apply same_transform_invariant; assumption.
  - unfold mousemove in H.
    destruct (getTransformedPoint dpr (transform s) _ _) as [pt|];
      [|discriminate].
    destruct (draggingObject s) as [obj|] eqn:Hdrag.
    + destruct (isFunction (Drawable.move obj));
        injection H as <- _; exact Hinv.
    + destruct (dragStart s) as [start|].
      * injection H as <- _.
        apply enforced_invariant; [apply translate_uniform, Hu|].
        discriminate.
      * injection H as <- _. exact Hinv.
  - injection H as <- _. unfold mouseup.
    destruct (draggingObject s) as [obj|]; [|destruct (dragStart s)];
      try exact Hinv; apply same_transform_invariant;
      try assumption; discriminate.
Qed.

Lemma reachable_invariant (s : State) :
  reachable dpr drawables maxZoom rect s -> invariant s.
Proof.
  induction 1 as [|s s' i effects _ IH H].
  - apply mounted_invariant.
  - eapply handle_invariant; eassumption.
Qed.

(** In a reachable state every handler does its own steps, those before
    the render pass, inside the finite numbers and never calls a [move] that
    is not a function. *)
Lemma handle_total (s : State) (i : Input) :
  reachable dpr drawables maxZoom rect s ->
  exists (s' : State) (effects : list Effect),
    handle dpr drawables maxZoom rect s i = Some (s', effects) /\
    ~ In TypeError effects.
Proof.
  intros Hr. destruct (reachable_invariant s Hr) as (Hu & Ha & Hobj).
  assert (Hn : ~ DOMMatrix.a (transform s) == 0) by lra.
  destruct i as [ev|ev|ev|]; simpl.
  - unfold mousewheel. destruct (Qltb (WheelEvent.deltaY ev) 0 && _).
    + do 2 eexists. split; [reflexivity|]. intros [].
    + rewrite (getTransformedPoint_some _ _ _ _ Hn).
      do 2 eexists. split; [reflexivity|]. intros [H|[]]. discriminate.
  - unfold mousedown. destruct (negb _).
    + do 2 eexists. split; [reflexivity|]. intros [].
    + rewrite (getTransformedPoint_some _ _ _ _ Hn).
      destruct (getObjectAt drawables _) as [obj|];
        [destruct (isFunction (Drawable.move obj))|];
        do 2 eexists; (split; [reflexivity|]); intros [].
  - unfold mousemove. rewrite (getTransformedPoint_some _ _ _ _ Hn).
    destruct (draggingObject s) as [obj|] eqn:Hdrag.
    + rewrite (Hobj obj eq_refl).
      do 2 eexists. split; [reflexivity|].
      intros [H|[H|[]]]; discriminate.
    + destruct (dragStart s);
        do 2 eexists; (split; [reflexivity|]).
      * intros [H|[]]. discriminate.
      * intros [].
  - do 2 eexists. split; [reflexivity|]. intros [].
Qed.

End Invariant.

(** ** The mapper against the transform *)

(** [applyTransform] agrees with the two context methods: translating the
    context shifts what is drawn, scaling it stretches what is drawn. *)
Lemma applyTransform_translate (T : DOMMatrix.t) (tx ty : Q) (p : Point.t) :
  Point.equiv (applyTransform (Ctx.translate T tx ty) p)
              (applyTransform T (Point.mk (Point.x p + tx) (Point.y p + ty))).
Proof. unfold applyTransform, Ctx.translate, Point.equiv. simpl. split; ring. Qed.

Lemma applyTransform_scale (T : DOMMatrix.t) (sx sy : Q) (p : Point.t) :
  Point.equiv (applyTransform (Ctx.scale T sx sy) p)
              (applyTransform T (Point.mk (sx * Point.x p) (sy * Point.y p))).
Proof. unfold applyTransform, Ctx.scale, Point.equiv. simpl. split; ring. Qed.

(** The mapper undoes the transform: drawing at the returned logical point
    lands on the bitmap pixel under the pointer, that is on the offset times
    the density factor. *)
Theorem mapper_inverts_transform
    (dpr : Q) (T : DOMMatrix.t) (x y : Q) (L : Point.t) :
  uniform T ->
  getTransformedPoint dpr T x y = Some L ->
  Point.equiv (applyTransform T L)
              (Point.mk (x * DEFAULT_SCALING dpr) (y * DEFAULT_SCALING dpr)).
Proof.
  intros (Hb & Hc & Had) HL.
  apply getTransformedPoint_inv in HL. destruct HL as (Ha & Hx & Hy).
  unfold applyTransform, Point.equiv. simpl.
  rewrite Hb, Hc, <- Had, Hx, Hy. split; field; exact Ha.
Qed.

Lemma mapper_inverts_transform_witness :
  Point.equiv
    (applyTransform (DOMMatrix.mk 3 0 0 3 (-120) (-60))
                    (logicalPoint 2 (DOMMatrix.mk 3 0 0 3 (-120) (-60)) 100 40))
    (Point.mk (100 * DEFAULT_SCALING 2) (40 * DEFAULT_SCALING 2)).
Proof.
  apply (mapper_inverts_transform 2 (DOMMatrix.mk 3 0 0 3 (-120) (-60)) 100 40).
  - repeat split; reflexivity.
  - reflexivity.
Defined.

Lemma mounted_transform (dpr : Q) (rect : Rect.t) :
  Rect.native rect ->
  transform (mounted dpr rect)
  = DOMMatrix.mk (1 * DEFAULT_SCALING dpr) (0 * DEFAULT_SCALING dpr)
                 (0 * DEFAULT_SCALING dpr) (1 * DEFAULT_SCALING dpr) 0 0.
Proof.
  intros [Hw Hh]. pose proof (DEFAULT_SCALING_ge_2 dpr) as HD.
  unfold mounted, scaleCanvas. cbn [transform].
  rewrite enforceBounds_unfold. unfold Ctx.scale. cbn.
  rewrite !clampScale_fix by lra.
  assert (Hclamp : forall bound, bound <= 0 -> clampTranslation 0 bound = 0).
  { intros bound Hbound. unfold clampTranslation.
    destruct (Qlt_le_dec 0 0) as [H0|H0]; [lra|].
    destruct (Qlt_le_dec 0 bound); [lra|reflexivity]. }
  rewrite !Hclamp by (apply maxTranslation_nonpos; lra).
  reflexivity.
Qed.

(** Right after mounting (not zoomed, not panned) the mapper returns the
    offset it is given, as the comment above [getTransformedPoint] says of
    the point (32, 32). *)
Theorem mounted_maps_offsets_to_themselves
    (dpr : Q) (rect : Rect.t) (x y : Q) :
  Rect.native rect ->
  exists L : Point.t,
    getTransformedPoint dpr (transform (mounted dpr rect)) x y = Some L /\
    Point.equiv L (Point.mk x y).
Proof.
  intros Hrect. pose proof (DEFAULT_SCALING_pos dpr) as HD.
  rewrite (mounted_transform dpr rect Hrect).
  eexists. split.
  - apply getTransformedPoint_some. simpl. lra.
  - split; simpl; field; lra.
Qed.

Lemma mounted_maps_offsets_to_themselves_witness :
  exists L : Point.t,
    getTransformedPoint 3 (transform (mounted 3 (Rect.mk 700 700))) 32 32
    = Some L /\
    Point.equiv L (Point.mk 32 32).
Proof.
  apply (mounted_maps_offsets_to_themselves 3 (Rect.mk 700 700) 32 32).
  split; discriminate.
Defined.

(** ** Bounds, once more *)

Lemma enforceBounds_inBounds (dpr : Q) (rect : Rect.t) (T : DOMMatrix.t) :
  Rect.native rect -> inBounds dpr rect (enforceBounds dpr rect T).
Proof.
  intros [Hw Hh]. rewrite enforceBounds_unfold. unfold inBounds. simpl.
  split; [apply clampScale_ge_1|]. split; [apply clampScale_ge_1|].
  split; apply clampTranslation_range, maxTranslation_nonpos;
    auto using clampScale_ge_1.
Qed.

Lemma clampTranslation_fix (t bound : Q) :
  bound <= t <= 0 -> clampTranslation t bound = t.
Proof.
  intros [H1 H2]. unfold clampTranslation.
  destruct (Qlt_le_dec 0 t) as [H|H]; [lra|].
  destruct (Qlt_le_dec t bound); [lra|reflexivity].
Qed.

(** A transform within bounds is left alone by [enforceBounds]. *)
Lemma enforceBounds_fix (dpr : Q) (rect : Rect.t) (T : DOMMatrix.t) :
  inBounds dpr rect T -> enforceBounds dpr rect T = T.
Proof.
  intros (Ha & Hd & He & Hf). rewrite enforceBounds_unfold.
  rewrite !clampScale_fix by assumption.
  rewrite !clampTranslation_fix by assumption.
  destruct T; reflexivity.
Qed.

(** Within bounds, every pointer position on the canvas maps into the
    density-scaled content rectangle. *)
Lemma inBounds_pointer_in_content
    (dpr : Q) (rect : Rect.t) (T : DOMMatrix.t) (x y : Q) :
  Rect.native rect -> uniform T -> inBounds dpr rect T -> onCanvas rect x y ->
  0 <= Point.x (logicalPoint dpr T x y) <= scaledWidth dpr rect /\
  0 <= Point.y (logicalPoint dpr T x y) <= scaledHeight dpr rect.
Proof.
  intros [Hw Hh] (_ & _ & Had) (Ha & Hd & He & Hf) [[Hx0 Hx1] [Hy0 Hy1]].
  pose proof (DEFAULT_SCALING_pos dpr) as HD.
  unfold maxTranslation in He, Hf. rewrite <- Had in Hf.
  assert (Hn : ~ DOMMatrix.a T == 0) by lra.
  assert (Hpos : 0 < DOMMatrix.a T) by lra.
  unfold scaledWidth, scaledHeight, logicalPoint. simpl.
  assert (HxD : 0 <= x * DEFAULT_SCALING dpr)
    by (apply Qmult_le_0_compat; lra).
  assert (HyD : 0 <= y * DEFAULT_SCALING dpr)
    by (apply Qmult_le_0_compat; lra).
  assert (HxW : x * DEFAULT_SCALING dpr
                <= Rect.width rect * DEFAULT_SCALING dpr)
    by (apply Qmult_le_compat_r; lra).
  assert (HyH : y * DEFAULT_SCALING dpr
                <= Rect.height rect * DEFAULT_SCALING dpr)
    by (apply Qmult_le_compat_r; lra).
  setoid_replace (1 / DOMMatrix.a T * x * DEFAULT_SCALING dpr
                  - 1 / DOMMatrix.a T * DOMMatrix.e T)
    with ((x * DEFAULT_SCALING dpr - DOMMatrix.e T) / DOMMatrix.a T)
    by (field; exact Hn).
  setoid_replace (1 / DOMMatrix.a T * y * DEFAULT_SCALING dpr
                  - 1 / DOMMatrix.a T * DOMMatrix.f T)
    with ((y * DEFAULT_SCALING dpr - DOMMatrix.f T) / DOMMatrix.a T)
    by (field; exact Hn).
  repeat split.
  - apply Qle_shift_div_l; [exact Hpos | lra].
  - apply Qle_shift_div_r; [exact Hpos | lra].
  - apply Qle_shift_div_l; [exact Hpos | lra].
  - apply Qle_shift_div_r; [exact Hpos | lra].
Qed.

(** After [enforceBounds], every pointer position on the canvas maps into
    the density-scaled content rectangle (the one the grid is drawn on): the
    view cannot show anything outside it. *)
Theorem enforced_pointer_stays_in_content
    (dpr : Q) (rect : Rect.t) (T : DOMMatrix.t) (x y : Q) :
  Rect.native rect ->
  uniform T ->
  onCanvas rect x y ->
  exists L : Point.t,
    getTransformedPoint dpr (enforceBounds dpr rect T) x y = Some L /\
    0 <= Point.x L <= scaledWidth dpr rect /\
    0 <= Point.y L <= scaledHeight dpr rect.
Proof.
  intros Hrect Hu Hon.
  pose proof (enforceBounds_inBounds dpr rect T Hrect) as Hb.
  pose proof (enforceBounds_uniform dpr rect T Hu) as Hu'.
  exists (logicalPoint dpr (enforceBounds dpr rect T) x y). split.
  - apply getTransformedPoint_some. destruct Hb as (Ha & _). lra.
  - apply inBounds_pointer_in_content; assumption.
Qed.

Lemma enforced_pointer_stays_in_content_witness :
  exists L : Point.t,
    getTransformedPoint 2
      (enforceBounds 2 (Rect.mk 700 700) (DOMMatrix.mk 3 0 0 3 500 (-9000)))
      700 0 = Some L /\
    0 <= Point.x L <= scaledWidth 2 (Rect.mk 700 700) /\
    0 <= Point.y L <= scaledHeight 2 (Rect.mk 700 700).
Proof.
  apply (enforced_pointer_stays_in_content 2 (Rect.mk 700 700)
           (DOMMatrix.mk 3 0 0 3 500 (-9000)) 700 0).
  - split; discriminate.
  - repeat split; reflexivity.
  - repeat split; discriminate.
Defined.

(** ** Invariants of the running component *)

Section Running.

Variables (dpr : Q) (drawables : option (list Drawable.t))
          (maxZoom : option Q) (rect : Rect.t).

Hypothesis rect_native : Rect.native rect.

(** Every handler either keeps the transform or stores what [enforceBounds]
    returned. *)
Lemma handle_transform (s s' : State) (i : Input) (effects : list Effect) :
  handle dpr drawables maxZoom rect s i = Some (s', effects) ->
  transform s' = transform s \/
  exists T, transform s' = enforceBounds dpr rect T.
Proof.
  intros H. destruct i as [ev|ev|ev|]; simpl in H.
  - unfold mousewheel in H.
    destruct (Qltb (WheelEvent.deltaY ev) 0 && _).
    + injection H as <- _. left. reflexivity.
    + destruct (getTransformedPoint dpr (transform s) _ _) as [pt|];
        [|discriminate].
      injection H as <- _. right. eexists. reflexivity.
  - unfold mousedown in H.
    destruct (negb _); [injection H as <- _; left; reflexivity|].
    destruct (getTransformedPoint dpr (transform s) _ _) as [pt|];
      [|discriminate].
    destruct (getObjectAt drawables pt) as [obj|];
      [destruct (isFunction (Drawable.move obj))|];
      injection H as <- _; left; reflexivity.
  - unfold mousemove in H.
    destruct (getTransformedPoint dpr (transform s) _ _) as [pt|];
      [|discriminate].
    destruct (draggingObject s) as [obj|].
    + destruct (isFunction (Drawable.move obj));
        injection H as <- _; left; reflexivity.
    + destruct (dragStart s) as [start|]; injection H as <- _.
      * right. eexists. reflexivity.
      * left. reflexivity.
  - injection H as <- _. left. unfold mouseup.
    destruct (draggingObject s); [|destruct (dragStart s)]; reflexivity.
Qed.

Lemma reachable_inBounds (s : State) :
  reachable dpr drawables maxZoom rect s -> inBounds dpr rect (transform s).
Proof.
  induction 1 as [|s s' i effects _ IH H].
  - unfold mounted, scaleCanvas. cbn [transform].
    apply enforceBounds_inBounds, rect_native.
  - destruct (handle_transform _ _ _ _ H) as [-> | [T ->]];
      [exact IH | apply enforceBounds_inBounds, rect_native].
Qed.

Lemma run_reachable (inputs : list Input) :
  forall (s s' : State) (effects : list Effect),
    reachable dpr drawables maxZoom rect s ->
    run dpr drawables maxZoom rect s inputs = Some (s', effects) ->
    reachable dpr drawables maxZoom rect s'.
Proof.
  induction inputs as [|i inputs IH]; intros s s' effects Hr H; simpl in H.
  - injection H as <- _. exact Hr.
  - destruct (handle dpr drawables maxZoom rect s i) as [[s1 e1]|] eqn:Hi;
      [|discriminate].
    destruct (run dpr drawables maxZoom rect s1 inputs) as [[s2 e2]|] eqn:Hrun;
      [|discriminate].
    injection H as <- _.
    eapply IH; [|exact Hrun]. eapply reachable_step; eassumption.
Qed.

End Running.

(** In every state the component reaches, each of the four handlers does
    its own steps, those before the render pass a wheel or a pointer move
    ends with, inside the finite numbers: the scale is not 0 when the
    pointer is mapped, [move] is called only on a drawable that has it, and
    the state left behind is again one the component reaches.  Whether the
    render pass itself returns is another matter: it throws on a drawable
    without [draw] and does not return for a cell size that is not
    positive. *)
Theorem handlers_stay_within_finite_numbers
    (dpr : Q) (drawables : option (list Drawable.t)) (maxZoom : option Q)
    (rect : Rect.t) (s : State) (i : Input) :
  reachable dpr drawables maxZoom rect s ->
  exists (s' : State) (effects : list Effect),
    handle dpr drawables maxZoom rect s i = Some (s', effects) /\
    ~ In TypeError effects /\
    ~ DOMMatrix.a (transform s') == 0 /\
    reachable dpr drawables maxZoom rect s'.
Proof.
  intros Hr.
  destruct (handle_total dpr drawables maxZoom rect s i Hr)
    as (s' & effects & H & Hno).
  assert (Hr' : reachable dpr drawables maxZoom rect s')
    by (eapply reachable_step; eassumption).
  exists s', effects. split; [exact H|]. split; [exact Hno|].
  split; [|exact Hr'].
  destruct (reachable_invariant _ _ _ _ _ Hr') as (_ & Ha & _). lra.
Qed.

Lemma handlers_stay_within_finite_numbers_witness :
  let rect := Rect.mk 700 700 in
  exists (s' : State) (effects : list Effect),
    handle 2 (Some [box]) None rect (mounted 2 rect)
           (OnWheel (WheelEvent.mk (-100) 350 350)) = Some (s', effects) /\
    ~ In TypeError effects /\
    ~ DOMMatrix.a (transform s') == 0 /\
    reachable 2 (Some [box]) None rect s'.
Proof.
  intros rect.
  apply (handlers_stay_within_finite_numbers 2 (Some [box]) None rect
           (mounted 2 rect) (OnWheel (WheelEvent.mk (-100) 350 350))).
  apply reachable_mounted.
Defined.

(** In every state the component reaches, the transform has no skew, the
    same scale on both axes, and lies within the bounds of [enforceBounds]:
    enforcing the bounds again would change nothing. *)
Theorem reachable_transform_within_bounds
    (dpr : Q) (drawables : option (list Drawable.t)) (maxZoom : option Q)
    (rect : Rect.t) (s : State) :
  Rect.native rect ->
  reachable dpr drawables maxZoom rect s ->
  uniform (transform s) /\
  inBounds dpr rect (transform s) /\
  enforceBounds dpr rect (transform s) = transform s.
Proof.
  intros Hrect Hr.
  pose proof (reachable_inBounds dpr drawables maxZoom rect Hrect s Hr) as Hb.
  split; [apply (reachable_invariant _ _ _ _ _ Hr)|].
  split; [exact Hb | apply enforceBounds_fix, Hb].
Qed.

Lemma reachable_transform_within_bounds_witness :
  let rect := Rect.mk 700 700 in
  let inputs := [OnWheel (WheelEvent.mk (-1) 350 350);
                 OnMouseDown (MouseEvent.mk 0 100 100);
                 OnMouseMove (MouseEvent.mk 0 90 120)] in
  exists (s : State) (effects : list Effect),
    run 2 None None rect (mounted 2 rect) inputs = Some (s, effects) /\
    uniform (transform s) /\
    inBounds 2 rect (transform s) /\
    enforceBounds 2 rect (transform s) = transform s.
Proof.
  intros rect inputs.
  destruct (run 2 None None rect (mounted 2 rect) inputs)
    as [[s effects]|] eqn:Hrun.
  - exists s, effects. split; [reflexivity|].
    apply (reachable_transform_within_bounds 2 None None rect s).
    + split; discriminate.
    + apply (run_reachable 2 None None rect inputs (mounted 2 rect) s effects
               (reachable_mounted 2 None None rect) Hrun).
  - vm_compute in Hrun. discriminate.
Defined.

(** ** The scale under the wheel *)

Lemma scaleCap_ge_scaling (dpr : Q) (maxZoom : option Q) :
  DEFAULT_SCALING dpr <= scaleCap dpr maxZoom.
Proof. unfold scaleCap. apply Q.le_max_l. Qed.

Lemma scaleCap_ge_step (dpr : Q) (maxZoom : option Q) :
  1.02 * maxScaleValue maxZoom <= scaleCap dpr maxZoom.
Proof. unfold scaleCap. apply Q.le_max_r. Qed.

Lemma Qltb_false_inv (p q : Q) : Qltb p q = false -> q <= p.
Proof. unfold Qltb. destruct (Qlt_le_dec p q); [discriminate|auto]. Qed.

Lemma Qltb_true_inv (p q : Q) : Qltb p q = true -> p < q.
Proof. unfold Qltb. destruct (Qlt_le_dec p q); [auto|discriminate]. Qed.

(** The soft cap is a real cap: the scale never exceeds one zoom step above
    [maxScaleValue], unless the canvas was mounted with a larger scale, which
    it then never exceeds either. *)
Theorem scale_never_exceeds_soft_cap
    (dpr : Q) (drawables : option (list Drawable.t)) (maxZoom : option Q)
    (rect : Rect.t) (s : State) :
  reachable dpr drawables maxZoom rect s ->
  1 <= DOMMatrix.a (transform s) <= scaleCap dpr maxZoom.
Proof.
  intros Hr.
  split; [apply (reachable_invariant _ _ _ _ _ Hr)|].
  pose proof (DEFAULT_SCALING_ge_2 dpr) as HD.
  pose proof (scaleCap_ge_scaling dpr maxZoom) as Hcap.
  pose proof (scaleCap_ge_step dpr maxZoom) as Hstep.
  induction Hr as [|s s' i effects Hr IH H].
  - unfold mounted, scaleCanvas. cbn [transform].
    rewrite enforceBounds_unfold. cbn [DOMMatrix.a].
    unfold Ctx.scale. cbn [DOMMatrix.a DOMMatrix.identity].
    rewrite clampScale_fix by lra. lra.
  - pose proof (reachable_invariant _ _ _ _ _ Hr) as (_ & Ha & _).
    destruct i as [ev|ev|ev|]; simpl in H.
    + unfold mousewheel in H.
      destruct (Qltb (WheelEvent.deltaY ev) 0) eqn:Hd; simpl in H.
      * destruct (Qltb (maxScaleValue maxZoom) (DOMMatrix.a (transform s)))
          eqn:Hmax.
        -- injection H as <- _. exact IH.
        -- apply Qltb_false_inv in Hmax.
           destruct (getTransformedPoint dpr (transform s) _ _) as [pt|];
             [|discriminate].
           injection H as <- _. cbn [transform].
           rewrite enforceBounds_unfold, zoomAbout_fields. cbn [DOMMatrix.a].
           rewrite clampScale_fix by lra. lra.
      * destruct (getTransformedPoint dpr (transform s) _ _) as [pt|];
          [|discriminate].
        injection H as <- _. cbn [transform].
        rewrite enforceBounds_unfold, zoomAbout_fields. cbn [DOMMatrix.a].
        unfold clampScale.
        destruct (Qlt_le_dec (DOMMatrix.a (transform s) * 0.98) 1); lra.
    + unfold mousedown in H.
      destruct (negb _); [injection H as <- _; exact IH|].
      destruct (getTransformedPoint dpr (transform s) _ _) as [pt|];
        [|discriminate].
      destruct (getObjectAt drawables pt) as [obj|];
        [destruct (isFunction (Drawable.move obj))|];
        injection H as <- _; exact IH.
    + unfold mousemove in H.
      destruct (getTransformedPoint dpr (transform s) _ _) as [pt|];
        [|discriminate].
      destruct (draggingObject s) as [obj|].
      * destruct (isFunction (Drawable.move obj));
          injection H as <- _; exact IH.
      * destruct (dragStart s) as [start|]; injection H as <- _;
          [|exact IH].
        cbn [transform]. rewrite enforceBounds_unfold. cbn [DOMMatrix.a].
        unfold Ctx.translate. cbn [DOMMatrix.a].
        rewrite clampScale_fix by exact Ha. exact IH.
    + injection H as <- _. unfold mouseup.
      destruct (draggingObject s); [|destruct (dragStart s)]; exact IH.
Qed.

Lemma scale_never_exceeds_soft_cap_witness :
  let rect := Rect.mk 700 700 in
  let inputs := repeat (OnWheel (WheelEvent.mk (-1) 350 350)) 3 in
  exists (s : State) (effects : list Effect),
    run 2 None (Some 2.02) rect (mounted 2 rect) inputs = Some (s, effects) /\
    1 <= DOMMatrix.a (transform s) <= scaleCap 2 (Some 2.02).
Proof.
  intros rect inputs.
  destruct (run 2 None (Some 2.02) rect (mounted 2 rect) inputs)
    as [[s effects]|] eqn:Hrun.
  - exists s, effects. split; [reflexivity|].
    apply (scale_never_exceeds_soft_cap 2 None (Some 2.02) rect s).
    apply (run_reachable 2 None (Some 2.02) rect inputs (mounted 2 rect)
             s effects (reachable_mounted 2 None (Some 2.02) rect) Hrun).
  - vm_compute in Hrun. discriminate.
Defined.

(** ** What each handler leaves alone *)

(** Pressing and releasing a button never touch the transform; the wheel
    and pointer moves never touch [draggingObject], [dragStart] or the
    cursor. *)
Theorem handlers_frame
    (dpr : Q) (drawables : option (list Drawable.t)) (maxZoom : option Q)
    (rect : Rect.t) (s s' : State) (i : Input) (effects : list Effect) :
  handle dpr drawables maxZoom rect s i = Some (s', effects) ->
  match i with
  | OnMouseDown _ | OnMouseUp =>
      transform s' = transform s
  | OnWheel _ | OnMouseMove _ =>
      draggingObject s' = draggingObject s /\
      dragStart s' = dragStart s /\
      cursor s' = cursor s
  end.
Proof.
  intros H. destruct i as [ev|ev|ev|]; simpl in H.
  - unfold mousewheel in H.
    destruct (Qltb (WheelEvent.deltaY ev) 0 && _).
    + injection H as <- _. auto.
    + destruct (getTransformedPoint dpr (transform s) _ _) as [pt|];
        [|discriminate].
      injection H as <- _. auto.
  - unfold mousedown in H.
    destruct (negb _); [injection H as <- _; auto|].
    destruct (getTransformedPoint dpr (transform s) _ _) as [pt|];
      [|discriminate].
    destruct (getObjectAt drawables pt) as [obj|];
      [destruct (isFunction (Drawable.move obj))|];
      injection H as <- _; auto.
  - unfold mousemove in H.
    destruct (getTransformedPoint dpr (transform s) _ _) as [pt|];
      [|discriminate].
    destruct (draggingObject s) as [obj|] eqn:Hdrag.
    + destruct (isFunction (Drawable.move obj));
        injection H as <- _; auto.
    + destruct (dragStart s) as [start|] eqn:Hstart;
        injection H as <- _; cbn; auto.
  - injection H as <- _. unfold mouseup.
    destruct (draggingObject s); [|destruct (dragStart s)]; auto.
Qed.

Lemma handlers_frame_witness :
  let rect := Rect.mk 700 700 in
  let s := mkState (DOMMatrix.mk 3 0 0 3 (-10) (-20)) None
                   (Some (Point.mk 1 2)) "grabbing" in
  (exists (s' : State) (effects : list Effect),
      mousewheel 2 None rect s (WheelEvent.mk 100 350 350)
      = Some (s', effects) /\
      draggingObject s' = None /\
      dragStart s' = Some (Point.mk 1 2) /\
      cursor s' = "grabbing"%string) /\
  (exists (s' : State) (effects : list Effect),
      mousemove 2 rect s (MouseEvent.mk 0 40 50) = Some (s', effects) /\
      draggingObject s' = None /\
      dragStart s' = Some (Point.mk 1 2) /\
      cursor s' = "grabbing"%string) /\
  (exists (s' : State) (effects : list Effect),
      mousedown 2 (Some [box]) s (MouseEvent.mk 0 5 5) = Some (s', effects) /\
      transform s' = DOMMatrix.mk 3 0 0 3 (-10) (-20)) /\
  transform (mouseup s) = DOMMatrix.mk 3 0 0 3 (-10) (-20).
Proof.
  intros rect s. split; [|split; [|split]].
  - destruct (mousewheel 2 None rect s (WheelEvent.mk 100 350 350))
      as [[s' effects]|] eqn:H.
    + exists s', effects. split; [reflexivity|].
      exact (handlers_frame 2 (Some [box]) None rect s s'
               (OnWheel (WheelEvent.mk 100 350 350)) effects H).
    + vm_compute in H. discriminate.
  - destruct (mousemove 2 rect s (MouseEvent.mk 0 40 50))
      as [[s' effects]|] eqn:H.
    + exists s', effects. split; [reflexivity|].
      exact (handlers_frame 2 (Some [box]) None rect s s'
               (OnMouseMove (MouseEvent.mk 0 40 50)) effects H).
    + vm_compute in H. discriminate.
  - destruct (mousedown 2 (Some [box]) s (MouseEvent.mk 0 5 5))
      as [[s' effects]|] eqn:H.
    + exists s', effects. split; [reflexivity|].
      exact (handlers_frame 2 (Some [box]) None rect s s'
               (OnMouseDown (MouseEvent.mk 0 5 5)) effects H).
    + vm_compute in H. discriminate.
  - exact (handlers_frame 2 (Some [box]) None rect s (mouseup s)
             OnMouseUp [] eq_refl).
Defined.

(** ** Whole gestures *)

Section Gestures.

Variables (dpr : Q) (drawables : option (list Drawable.t))
          (maxZoom : option Q) (rect : Rect.t).

Lemma run_app (l1 l2 : list Input) :
  forall s : State,
    run dpr drawables maxZoom rect s (l1 ++ l2)
    = match run dpr drawables maxZoom rect s l1 with
      | None => None
      | Some (s1, e1) =>
          match run dpr drawables maxZoom rect s1 l2 with
          | None => None
          | Some (s2, e2) => Some (s2, e1 ++ e2)
          end
      end.
Proof.
  induction l1 as [|i l1 IH]; intros s; simpl.
  - destruct (run dpr drawables maxZoom rect s l2) as [[s2 e2]|]; reflexivity.
  - destruct (handle dpr drawables maxZoom rect s i) as [[s1 e1]|];
      [|reflexivity].
    rewrite IH.
    destruct (run dpr drawables maxZoom rect s1 l1) as [[s2 e2]|];
      [|reflexivity].
    destruct (run dpr drawables maxZoom rect s2 l2) as [[s3 e3]|];
      [|reflexivity].
    rewrite app_assoc. reflexivity.
Qed.

(** With nothing pressed, pointer moves do nothing. *)
Lemma run_idle (T : DOMMatrix.t) (cur : string) (moves : list MouseEvent.t) :
  ~ DOMMatrix.a T == 0 ->
  run dpr drawables maxZoom rect (mkState T None None cur)
      (map OnMouseMove moves)
  = Some (mkState T None None cur, []).
Proof.
  intros Ha. induction moves as [|ev moves IH]; simpl.
  - reflexivity.
  - unfold mousemove. cbn [transform draggingObject dragStart].
    rewrite (getTransformedPoint_some _ _ _ _ Ha), IH. reflexivity.
Qed.

End Gestures.

(** A whole gesture with the primary button, started with nothing pressed,
    ends with nothing pressed and the cursor back to [auto], whatever it hit
    and however the pointer moved; when it dragged a drawable, the transform
    is the one it started with. *)
Theorem primary_gesture_returns_to_idle
    (dpr : Q) (drawables : option (list Drawable.t)) (maxZoom : option Q)
    (rect : Rect.t) (s : State) (down : MouseEvent.t) (pt : Point.t)
    (moves : list MouseEvent.t) :
  mode s = Idle ->
  MouseEvent.button down = 0%Z ->
  getTransformedPoint dpr (transform s)
    (MouseEvent.offsetX down) (MouseEvent.offsetY down) = Some pt ->
  exists (s' : State) (effects : list Effect),
    run dpr drawables maxZoom rect s
        (OnMouseDown down :: map OnMouseMove moves ++ [OnMouseUp])
    = Some (s', effects) /\
    mode s' = Idle /\
    cursor s' = "auto"%string /\
    (forall obj, getObjectAt drawables pt = Some obj ->
                 isFunction (Drawable.move obj) = true ->
                 transform s' = transform s).
Proof.
  intros Hidle Hbutton Hpt.
  pose proof (getTransformedPoint_inv _ _ _ _ _ Hpt) as (Ha & _ & _).
  destruct s as [T drag start cur]. unfold mode in Hidle. cbn in *.
  destruct drag as [?|]; [discriminate|].
  destruct start as [?|]; [discriminate|].
  cbn [run handle]. unfold mousedown. cbn [transform draggingObject dragStart].
  rewrite Hbutton, Hpt. cbn [Z.eqb negb].
  destruct (getObjectAt drawables pt) as [obj|] eqn:Hhit.
  - destruct (isFunction (Drawable.move obj)) eqn:Hmove.
    + rewrite run_app, (run_dragging _ _ _ _ _ _ _ _ moves Ha Hmove).
      cbn. do 2 eexists. split; [reflexivity|]. repeat split.
    + rewrite run_app, (run_panning _ _ _ _ _ _ moves _ Ha).
      cbn. do 2 eexists. split; [reflexivity|]. repeat split.
      intros o [= <-]. congruence.
  - rewrite run_app, (run_panning _ _ _ _ _ _ moves _ Ha).
    cbn. do 2 eexists. split; [reflexivity|]. repeat split.
    discriminate.
Qed.

Lemma primary_gesture_returns_to_idle_witness :
  let rect := Rect.mk 700 700 in
  let s := mounted 2 rect in
  let moves := [MouseEvent.mk 0 20 30; MouseEvent.mk 0 40 50] in
  exists (s' : State) (effects : list Effect),
    run 2 (Some [box]) None rect s
        (OnMouseDown (MouseEvent.mk 0 5 5)
           :: map OnMouseMove moves ++ [OnMouseUp])
    = Some (s', effects) /\
    mode s' = Idle /\
    cursor s' = "auto"%string /\
    (forall obj,
        getObjectAt (Some [box]) (logicalPoint 2 (transform s) 5 5) = Some obj ->
        isFunction (Drawable.move obj) = true ->
        transform s' = transform s).
Proof.
  intros rect s moves.
  apply (primary_gesture_returns_to_idle 2 (Some [box]) None rect s
           (MouseEvent.mk 0 5 5) (logicalPoint 2 (transform s) 5 5) moves);
    reflexivity.
Defined.

(** A whole gesture with any other button, started with nothing pressed,
    changes nothing and calls nothing. *)
Theorem secondary_gesture_is_ignored
    (dpr : Q) (drawables : option (list Drawable.t)) (maxZoom : option Q)
    (rect : Rect.t) (s : State) (down : MouseEvent.t)
    (moves : list MouseEvent.t) :
  mode s = Idle ->
  MouseEvent.button down <> 0%Z ->
  ~ DOMMatrix.a (transform s) == 0 ->
  run dpr drawables maxZoom rect s
      (OnMouseDown down :: map OnMouseMove moves ++ [OnMouseUp])
  = Some (s, []).
Proof.
  intros Hidle Hbutton Ha.
  destruct s as [T drag start cur]. unfold mode in Hidle. cbn in *.
  destruct drag as [?|]; [discriminate|].
  destruct start as [?|]; [discriminate|].
  cbn [run handle]. unfold mousedown.
  apply Z.eqb_neq in Hbutton. rewrite Hbutton. cbn [negb].
  rewrite run_app, (run_idle _ _ _ _ _ _ moves Ha). reflexivity.
Qed.

Lemma secondary_gesture_is_ignored_witness :
  let rect := Rect.mk 700 700 in
  run 2 (Some [box]) None rect (mounted 2 rect)
      (OnMouseDown (MouseEvent.mk 2 5 5)
         :: map OnMouseMove [MouseEvent.mk 2 20 30; MouseEvent.mk 2 40 50]
         ++ [OnMouseUp])
  = Some (mounted 2 rect, []).
Proof.
  intros rect.
  apply (secondary_gesture_is_ignored 2 (Some [box]) None rect (mounted 2 rect)
           (MouseEvent.mk 2 5 5)
           [MouseEvent.mk 2 20 30; MouseEvent.mk 2 40 50]).
  - reflexivity.
  - discriminate.
  - discriminate.
Defined.

(** ** Zooming in, handler and all *)

Lemma zoomAbout_pivot (dpr : Q) (T : DOMMatrix.t) (x y zoom : Q) (L : Point.t) :
  uniform T -> ~ zoom == 0 ->
  getTransformedPoint dpr T x y = Some L ->
  exists L', getTransformedPoint dpr (zoomAbout T L zoom) x y = Some L' /\
             Point.equiv L' L.
Proof.
  intros (Hb & Hc & Had) Hz HL.
  apply getTransformedPoint_inv in HL. destruct HL as (Ha & Hx & Hy).
  assert (Haz : ~ DOMMatrix.a (zoomAbout T L zoom) == 0).
  { rewrite zoomAbout_fields. simpl. intros H.
    apply Qmult_integral in H. tauto. }
  eexists. split; [apply getTransformedPoint_some; exact Haz|].
  rewrite zoomAbout_fields. unfold Point.equiv. simpl.
  rewrite Hb, Hc, <- Had, Hx, Hy. split; field; tauto.
Qed.

(** Zooming in about a pointer on the canvas never runs into the bounds. *)
Lemma zoomAbout_in_stays_inBounds
    (dpr : Q) (rect : Rect.t) (T : DOMMatrix.t) (x y : Q) (L : Point.t) :
  Rect.native rect -> uniform T -> inBounds dpr rect T -> onCanvas rect x y ->
  getTransformedPoint dpr T x y = Some L ->
  inBounds dpr rect (zoomAbout T L 1.02).
Proof.
  intros [Hw Hh] (Hb & Hc & Had) (Ha & Hd & He & Hf) [[Hx0 Hx1] [Hy0 Hy1]] HL.
  apply getTransformedPoint_inv in HL. destruct HL as (Hn & Hx & Hy).
  pose proof (DEFAULT_SCALING_pos dpr) as HD.
  unfold maxTranslation in He, Hf.
  assert (HxD : 0 <= x * DEFAULT_SCALING dpr)
    by (apply Qmult_le_0_compat; lra).
  assert (HyD : 0 <= y * DEFAULT_SCALING dpr)
    by (apply Qmult_le_0_compat; lra).
  assert (HxW : x * DEFAULT_SCALING dpr
                <= Rect.width rect * DEFAULT_SCALING dpr)
    by (apply Qmult_le_compat_r; lra).
  assert (HyH : y * DEFAULT_SCALING dpr
                <= Rect.height rect * DEFAULT_SCALING dpr)
    by (apply Qmult_le_compat_r; lra).
  assert (Hn' : ~ DOMMatrix.d T == 0) by lra.
  rewrite zoomAbout_fields. unfold inBounds, maxTranslation. simpl.
  assert (Ee : DOMMatrix.a T * 1.02 * - Point.x L
               + DOMMatrix.c T * 1.02 * - Point.y L
               + (DOMMatrix.a T * Point.x L + DOMMatrix.c T * Point.y L
                  + DOMMatrix.e T)
               == 1.02 * DOMMatrix.e T - 0.02 * (x * DEFAULT_SCALING dpr)).
  { rewrite Hc, Hx. field. exact Hn. }
  assert (Ef : DOMMatrix.b T * 1.02 * - Point.x L
               + DOMMatrix.d T * 1.02 * - Point.y L
               + (DOMMatrix.b T * Point.x L + DOMMatrix.d T * Point.y L
                  + DOMMatrix.f T)
               == 1.02 * DOMMatrix.f T - 0.02 * (y * DEFAULT_SCALING dpr)).
  { rewrite Hb, Hy, Had. field. exact Hn'. }
  rewrite Ee, Ef.
  split; [lra|]. split; [lra|]. split; split; lra.
Qed.

(** The wheel handler as a whole keeps the point under the pointer where it
    is when zooming in: with the pointer on the canvas and the transform
    within bounds, [enforceBounds] has nothing to correct after the zoom. *)
Theorem zoom_in_keeps_pointer_fixed
    (dpr : Q) (maxZoom : option Q) (rect : Rect.t) (s : State)
    (ev : WheelEvent.t) (L : Point.t) :
  Rect.native rect ->
  uniform (transform s) ->
  inBounds dpr rect (transform s) ->
  onCanvas rect (WheelEvent.offsetX ev) (WheelEvent.offsetY ev) ->
  WheelEvent.deltaY ev < 0 ->
  DOMMatrix.a (transform s) <= maxScaleValue maxZoom ->
  getTransformedPoint dpr (transform s)
    (WheelEvent.offsetX ev) (WheelEvent.offsetY ev) = Some L ->
  exists (s' : State) (L' : Point.t),
    mousewheel dpr maxZoom rect s ev = Some (s', [Redraw]) /\
    transform s' = zoomAbout (transform s) L 1.02 /\
    getTransformedPoint dpr (transform s')
      (WheelEvent.offsetX ev) (WheelEvent.offsetY ev) = Some L' /\
    Point.equiv L' L.
Proof.
  intros Hrect Hu Hb Hon Hd Hmax HL.
  destruct (zoomAbout_pivot dpr (transform s) (WheelEvent.offsetX ev)
              (WheelEvent.offsetY ev) 1.02 L Hu) as (L' & HL' & Heq);
    [discriminate | exact HL |].
  pose proof (zoomAbout_in_stays_inBounds dpr rect (transform s)
                (WheelEvent.offsetX ev) (WheelEvent.offsetY ev) L
                Hrect Hu Hb Hon HL) as Hb'.
  eexists. exists L'. split.
  - unfold mousewheel.
    rewrite (Qltb_true _ _ Hd), (Qltb_false _ _ Hmax). cbn [andb].
    rewrite HL. rewrite (enforceBounds_fix _ _ _ Hb'). reflexivity.
  - cbn [transform]. split; [reflexivity|]. split; assumption.
Qed.

Lemma zoom_in_keeps_pointer_fixed_witness :
  let rect := Rect.mk 700 700 in
  let s := mkState (DOMMatrix.mk 3 0 0 3 (-2800) 0) None None "" in
  let ev := WheelEvent.mk (-1) 700 0 in
  let L := logicalPoint 2 (transform s) 700 0 in
  exists (s' : State) (L' : Point.t),
    mousewheel 2 None rect s ev = Some (s', [Redraw]) /\
    transform s' = zoomAbout (transform s) L 1.02 /\
    getTransformedPoint 2 (transform s') 700 0 = Some L' /\
    Point.equiv L' L.
Proof.
  intros rect s ev L.
  apply (zoom_in_keeps_pointer_fixed 2 None rect s ev L).
  - split; discriminate.
  - repeat split; reflexivity.
  - unfold inBounds. simpl. repeat split; discriminate.
  - repeat split; discriminate.
  - reflexivity.
  - discriminate.
  - reflexivity.
Defined.

(** ** The view at the minimum scale, and panning *)

Lemma maxTranslation_at_one (dpr extent scale : Q) :
  scale == 1 -> maxTranslation dpr extent scale == 0.
Proof. intros H. unfold maxTranslation. rewrite H. ring. Qed.

Lemma clampTranslation_pinned (t bound : Q) :
  bound == 0 -> clampTranslation t bound == 0.
Proof.
  intros H. assert (Hb : bound <= 0) by lra.
  pose proof (clampTranslation_range t bound Hb). lra.
Qed.

Lemma enforceBounds_pinned (dpr : Q) (rect : Rect.t) (T : DOMMatrix.t) :
  clampScale (DOMMatrix.a T) == 1 -> clampScale (DOMMatrix.d T) == 1 ->
  DOMMatrix.a (enforceBounds dpr rect T) == 1 /\
  DOMMatrix.d (enforceBounds dpr rect T) == 1 /\
  DOMMatrix.e (enforceBounds dpr rect T) == 0 /\
  DOMMatrix.f (enforceBounds dpr rect T) == 0.
Proof.
  intros Ha Hd. rewrite enforceBounds_unfold. simpl.
  split; [exact Ha|]. split; [exact Hd|].
  split; apply clampTranslation_pinned, maxTranslation_at_one; assumption.
Qed.

(** At scale 1 the view is pinned: neither a zoom-out nor a pan moves it.
    Both handlers run and redraw, and leave scale 1 and translation 0. *)
Theorem view_is_pinned_at_minimum_scale
    (dpr : Q) (maxZoom : option Q) (rect : Rect.t) (s : State) :
  DOMMatrix.a (transform s) == 1 ->
  DOMMatrix.d (transform s) == 1 ->
  (forall ev : WheelEvent.t,
      0 <= WheelEvent.deltaY ev ->
      exists s' : State,
        mousewheel dpr maxZoom rect s ev = Some (s', [Redraw]) /\
        DOMMatrix.a (transform s') == 1 /\ DOMMatrix.d (transform s') == 1 /\
        DOMMatrix.e (transform s') == 0 /\ DOMMatrix.f (transform s') == 0)
  /\
  (forall (ev : MouseEvent.t) (anchor : Point.t),
      draggingObject s = None ->
      dragStart s = Some anchor ->
      exists s' : State,
        mousemove dpr rect s ev = Some (s', [Redraw]) /\
        DOMMatrix.a (transform s') == 1 /\ DOMMatrix.d (transform s') == 1 /\
        DOMMatrix.e (transform s') == 0 /\ DOMMatrix.f (transform s') == 0).
Proof.
  intros Ha Hd.
  assert (Hn : ~ DOMMatrix.a (transform s) == 0) by lra.
  split.
  - intros ev Hdelta. eexists. split.
    + unfold mousewheel. rewrite (Qltb_false _ _ Hdelta). cbn [andb].
      rewrite (getTransformedPoint_some _ _ _ _ Hn). reflexivity.
    + cbn [transform]. apply enforceBounds_pinned;
        rewrite zoomAbout_fields; cbn [DOMMatrix.a DOMMatrix.d];
        unfold clampScale;
        match goal with
        | |- context [Qlt_le_dec ?u ?v] => destruct (Qlt_le_dec u v)
        end; lra.
  - intros ev anchor Hdrag Hstart. eexists. split.
    + unfold mousemove.
      rewrite (getTransformedPoint_some _ _ _ _ Hn), Hdrag, Hstart.
      reflexivity.
    + cbn [transform]. apply enforceBounds_pinned;
        unfold Ctx.translate; cbn [DOMMatrix.a DOMMatrix.d];
        unfold clampScale;
        match goal with
        | |- context [Qlt_le_dec ?u ?v] => destruct (Qlt_le_dec u v)
        end; lra.
Qed.

Lemma view_is_pinned_at_minimum_scale_witness :
  let rect := Rect.mk 700 700 in
  let s := mkState (DOMMatrix.mk 1 0 0 1 0 0) None (Some (Point.mk 10 10))
                   "grabbing" in
  exists s' : State,
    mousemove 2 rect s (MouseEvent.mk 0 300 200) = Some (s', [Redraw]) /\
    DOMMatrix.a (transform s') == 1 /\ DOMMatrix.d (transform s') == 1 /\
    DOMMatrix.e (transform s') == 0 /\ DOMMatrix.f (transform s') == 0.
Proof.
  intros rect s.
  apply (proj2 (view_is_pinned_at_minimum_scale 2 None rect s
                  (Qeq_refl 1) (Qeq_refl 1))
           (MouseEvent.mk 0 300 200) (Point.mk 10 10)); reflexivity.
Defined.

(** Panning never zooms: a pointer move while panning changes the two
    translations only, provided the scales are not below the minimum. *)
Theorem panning_never_zooms
    (dpr : Q) (rect : Rect.t) (s : State) (ev : MouseEvent.t)
    (anchor : Point.t) :
  1 <= DOMMatrix.a (transform s) ->
  1 <= DOMMatrix.d (transform s) ->
  draggingObject s = None ->
  dragStart s = Some anchor ->
  exists s' : State,
    mousemove dpr rect s ev = Some (s', [Redraw]) /\
    DOMMatrix.a (transform s') = DOMMatrix.a (transform s) /\
    DOMMatrix.b (transform s') = DOMMatrix.b (transform s) /\
    DOMMatrix.c (transform s') = DOMMatrix.c (transform s) /\
    DOMMatrix.d (transform s') = DOMMatrix.d (transform s).
Proof.
  intros Ha Hd Hdrag Hstart.
  assert (Hn : ~ DOMMatrix.a (transform s) == 0) by lra.
  eexists. split.
  - unfold mousemove.
    rewrite (getTransformedPoint_some _ _ _ _ Hn), Hdrag, Hstart.
    reflexivity.
  - cbn [transform]. rewrite enforceBounds_unfold.
    unfold Ctx.translate. cbn [DOMMatrix.a DOMMatrix.b DOMMatrix.c DOMMatrix.d].
    rewrite !clampScale_fix by assumption. repeat split.
Qed.

Lemma panning_never_zooms_witness :
  let rect := Rect.mk 700 700 in
  let s := mkState (DOMMatrix.mk 3 0 0 3 (-100) (-50)) None
                   (Some (Point.mk 10 10)) "grabbing" in
  exists s' : State,
    mousemove 2 rect s (MouseEvent.mk 0 300 200) = Some (s', [Redraw]) /\
    DOMMatrix.a (transform s') = DOMMatrix.a (transform s) /\
    DOMMatrix.b (transform s') = DOMMatrix.b (transform s) /\
    DOMMatrix.c (transform s') = DOMMatrix.c (transform s) /\
    DOMMatrix.d (transform s') = DOMMatrix.d (transform s).
Proof.
  intros rect s.
  apply (panning_never_zooms 2 rect s (MouseEvent.mk 0 300 200)
           (Point.mk 10 10)); try reflexivity; discriminate.
Defined.

(** ** What the render pass wipes *)

(** The rectangle that the render pass clears covers the whole backing
    store, however far the view is zoomed or panned within bounds: every
    bitmap pixel is the image of a point that [clearRect] wipes. *)
Theorem clear_covers_backing_store
    (dpr : Q) (rect : Rect.t) (T : DOMMatrix.t) (u v : Q) :
  Rect.native rect ->
  uniform T ->
  inBounds dpr rect T ->
  0 <= u <= inject_Z (Qfloor (Rect.width rect * DEFAULT_SCALING dpr)) ->
  0 <= v <= inject_Z (Qfloor (Rect.height rect * DEFAULT_SCALING dpr)) ->
  exists p : Point.t,
    clears (clearEvent (Qfloor (Rect.width rect * DEFAULT_SCALING dpr))
                       (Qfloor (Rect.height rect * DEFAULT_SCALING dpr))) p /\
    Point.equiv (applyTransform T p) (Point.mk u v).
Proof.
  intros [Hw Hh] (Hb & Hc & Had) (Ha & Hd & He & Hf) [Hu0 Hu1] [Hv0 Hv1].
  unfold maxTranslation in He, Hf.
  pose proof (Qlt_floor (Rect.width rect * DEFAULT_SCALING dpr)) as HW.
  pose proof (Qlt_floor (Rect.height rect * DEFAULT_SCALING dpr)) as HH.
  rewrite inject_Z_plus in HW, HH.
  set (W := inject_Z (Qfloor (Rect.width rect * DEFAULT_SCALING dpr))) in *.
  set (H := inject_Z (Qfloor (Rect.height rect * DEFAULT_SCALING dpr))) in *.
  change (inject_Z 1) with 1 in HW, HH.
  set (wD := Rect.width rect * DEFAULT_SCALING dpr) in *.
  set (hD := Rect.height rect * DEFAULT_SCALING dpr) in *.
  assert (Pw : wD * (DOMMatrix.a T - 1) <= (W + 1) * (DOMMatrix.a T - 1))
    by (apply Qmult_le_compat_r; lra).
  assert (Ph : hD * (DOMMatrix.d T - 1) <= (H + 1) * (DOMMatrix.d T - 1))
    by (apply Qmult_le_compat_r; lra).
  assert (He' : - ((DOMMatrix.a T - 1) * wD) <= DOMMatrix.e T).
  { setoid_replace (- ((DOMMatrix.a T - 1) * wD))
      with (- (Rect.width rect * DOMMatrix.a T - Rect.width rect)
            * DEFAULT_SCALING dpr) by (unfold wD; ring).
    apply He. }
  assert (Hf' : - ((DOMMatrix.d T - 1) * hD) <= DOMMatrix.f T).
  { setoid_replace (- ((DOMMatrix.d T - 1) * hD))
      with (- (Rect.height rect * DOMMatrix.d T - Rect.height rect)
            * DEFAULT_SCALING dpr) by (unfold hD; ring).
    apply Hf. }
  assert (Hna : ~ DOMMatrix.a T == 0) by lra.
  assert (Hnd : ~ DOMMatrix.d T == 0) by lra.
  exists (Point.mk ((u - DOMMatrix.e T) / DOMMatrix.a T)
                   ((v - DOMMatrix.f T) / DOMMatrix.d T)).
  split.
  - unfold clears, clearEvent. cbn [Point.x Point.y]. fold W H.
    repeat split.
    + apply Qle_shift_div_l; lra.
    + apply Qle_shift_div_r; [lra|].
      setoid_replace ((0 + (W + 50)) * DOMMatrix.a T)
        with (W + (DOMMatrix.a T - 1) * (W + 1) + (49 * DOMMatrix.a T + 1))
        by ring.
      lra.
    + apply Qle_shift_div_l; lra.
    + apply Qle_shift_div_r; [lra|].
      setoid_replace ((0 + (H + 50)) * DOMMatrix.d T)
        with (H + (DOMMatrix.d T - 1) * (H + 1) + (49 * DOMMatrix.d T + 1))
        by ring.
      lra.
  - unfold applyTransform, Point.equiv. cbn [Point.x Point.y].
    rewrite Hb, Hc. split; field; tauto.
Qed.

Lemma clear_covers_backing_store_witness :
  let rect := Rect.mk (1401 # 2) (1401 # 2) in
  let T := DOMMatrix.mk 3 0 0 3 (-2802) 0 in
  exists p : Point.t,
    clears (clearEvent (Qfloor (Rect.width rect * DEFAULT_SCALING 2))
                       (Qfloor (Rect.height rect * DEFAULT_SCALING 2))) p /\
    Point.equiv (applyTransform T p) (Point.mk 1401 0).
Proof.
  intros rect T.
  apply (clear_covers_backing_store 2 rect T 1401 0).
  - split; discriminate.
  - repeat split; reflexivity.
  - unfold inBounds. simpl. repeat split; discriminate.
  - split; discriminate.
  - split; discriminate.
Defined.

(** ** Drawables that are not a list *)

(** A [drawables] prop that is not an array is treated like the empty
    array throughout: same render pass, same hit test, same handlers. *)
Theorem non_array_drawables_as_empty
    (dpr : Q) (gridOptions : option GridOptions.t) (maxZoom : option Q)
    (rect : Rect.t) :
  (forall (fuel : nat) (width height : Z),
      draw dpr gridOptions None fuel width height rect
      = draw dpr gridOptions (Some []) fuel width height rect) /\
  (forall pt : Point.t, getObjectAt None pt = getObjectAt (Some []) pt) /\
  (forall (s : State) (i : Input),
      handle dpr None maxZoom rect s i = handle dpr (Some []) maxZoom rect s i)
  /\
  (forall (cb : option HostFunction) (s : State) (ev : ContextMenuEvent.t),
      contextmenu dpr None cb s ev = contextmenu dpr (Some []) cb s ev).
Proof.
  split; [|split; [|split]].
  - intros fuel width height. rewrite !draw_unfold.
    destruct (gridPhase dpr gridOptions fuel rect) as [lines|]; [|reflexivity].
    simpl. rewrite app_nil_r. reflexivity.
  - reflexivity.
  - intros s [ev|ev|ev|]; reflexivity.
  - intros cb s ev. reflexivity.
Qed.

(** ** Context menu *)

(** In every state the component reaches, a right click on the canvas is
    handled: the platform menu is prevented first, then the host callback
    gets a logical point that lies in the content rectangle and, with it,
    the first drawable of the list the listener holds whose [touches]
    returns true at that point (every drawable before it has no [touches]
    or one that returns false there), or nothing when no drawable's
    [touches] returns true there.  Without a callback prop the handler ends
    in a TypeError, after preventing the menu. *)
Theorem contextmenu_reports_the_hit_drawable
    (dpr : Q) (drawables : option (list Drawable.t)) (maxZoom : option Q)
    (rect : Rect.t) (s : State) (ev : ContextMenuEvent.t) :
  Rect.native rect ->
  reachable dpr drawables maxZoom rect s ->
  onCanvas rect (ContextMenuEvent.offsetX ev) (ContextMenuEvent.offsetY ev) ->
  exists (pt : Point.t) (obj : option Drawable.t),
    contextmenu dpr drawables (Some hostFunction) s ev
    = Some [PreventDefault;
            OnContextMenu pt obj
              (ContextMenuEvent.clientX ev) (ContextMenuEvent.clientY ev)] /\
    contextmenu dpr drawables None s ev = Some [PreventDefault; NotAFunction] /\
    0 <= Point.x pt <= scaledWidth dpr rect /\
    0 <= Point.y pt <= scaledHeight dpr rect /\
    match obj with
    | Some d =>
        exists before after touches,
          drawables = Some (before ++ d :: after) /\
          Forall (fun z => forall touches',
                      Drawable.touches z = Some touches' ->
                      touches' (Point.x pt) (Point.y pt) = false) before /\
          Drawable.touches d = Some touches /\
          touches (Point.x pt) (Point.y pt) = true
    | None =>
        forall ds, drawables = Some ds ->
          Forall (fun z => forall touches',
                      Drawable.touches z = Some touches' ->
                      touches' (Point.x pt) (Point.y pt) = false) ds
    end.
Proof.
  intros Hrect Hr Hon.
  destruct (reachable_invariant _ _ _ _ _ Hr) as (Hu & Ha & _).
  pose proof (reachable_inBounds dpr drawables maxZoom rect Hrect s Hr) as Hb.
  assert (Hn : ~ DOMMatrix.a (transform s) == 0) by lra.
  set (pt := logicalPoint dpr (transform s)
               (ContextMenuEvent.offsetX ev) (ContextMenuEvent.offsetY ev)).
  assert (Hpt : getTransformedPoint dpr (transform s)
                  (ContextMenuEvent.offsetX ev) (ContextMenuEvent.offsetY ev)
                = Some pt) by (apply getTransformedPoint_some; exact Hn).
  exists pt, (getObjectAt drawables pt).
  unfold contextmenu. rewrite Hpt. cbn [isFunction].
  split; [reflexivity|]. split; [reflexivity|].
  assert (Hin : 0 <= Point.x pt <= scaledWidth dpr rect /\
                0 <= Point.y pt <= scaledHeight dpr rect)
    by (apply inBounds_pointer_in_content; assumption).
  split; [apply Hin|]. split; [apply Hin|].
  destruct (getObjectAt drawables pt) as [d|] eqn:Hhit.
  - destruct drawables as [ds|]; simpl in Hhit; [|discriminate].
    apply find_split in Hhit.
    destruct Hhit as (l1 & l2 & -> & H1 & H2).
    apply touchesAt_true_iff in H2. destruct H2 as (t & Ht & Htrue).
    exists l1, l2, t. split; [reflexivity|].
    split; [apply Forall_touchesAt_false, H1|]. split; assumption.
  - intros ds ->. simpl in Hhit.
    apply Forall_touchesAt_false, find_none_iff, Hhit.
Qed.

Lemma contextmenu_reports_the_hit_drawable_witness :
  let rect := Rect.mk 700 700 in
  let s := mounted 2 rect in
  let ev := ContextMenuEvent.mk 5 5 405 205 in
  exists (pt : Point.t) (obj : option Drawable.t),
    contextmenu 2 (Some [box]) (Some hostFunction) s ev
    = Some [PreventDefault; OnContextMenu pt obj 405 205] /\
    contextmenu 2 (Some [box]) None s ev = Some [PreventDefault; NotAFunction] /\
    0 <= Point.x pt <= scaledWidth 2 rect /\
    0 <= Point.y pt <= scaledHeight 2 rect /\
    match obj with
    | Some d =>
        exists before after touches,
          Some [box] = Some (before ++ d :: after) /\
          Forall (fun z => forall touches',
                      Drawable.touches z = Some touches' ->
                      touches' (Point.x pt) (Point.y pt) = false) before /\
          Drawable.touches d = Some touches /\
          touches (Point.x pt) (Point.y pt) = true
    | None =>
        forall ds, Some [box] = Some ds ->
          Forall (fun z => forall touches',
                      Drawable.touches z = Some touches' ->
                      touches' (Point.x pt) (Point.y pt) = false) ds
    end.
Proof.
  intros rect s ev.
  apply (contextmenu_reports_the_hit_drawable 2 (Some [box]) None rect s ev).
  - split; discriminate.
  - apply reachable_mounted.
  - repeat split; discriminate.
Defined.

(** ** Fixed points of the bounds enforcer *)

(** [enforceBounds] leaves a transform as it is exactly when the transform
    is within bounds. *)
Theorem enforceBounds_identity_iff_inBounds
    (dpr : Q) (rect : Rect.t) (T : DOMMatrix.t) :
  Rect.native rect ->
  (enforceBounds dpr rect T = T <-> inBounds dpr rect T).
Proof.
  intros Hrect. split.
  - intros H. rewrite <- H. apply enforceBounds_inBounds, Hrect.
  - apply enforceBounds_fix.
Qed.

Lemma enforceBounds_identity_iff_inBounds_witness :
  enforceBounds 2 (Rect.mk 700 700) (DOMMatrix.mk 3 0 0 3 (-2800) (-5)) 
  = DOMMatrix.mk 3 0 0 3 (-2800) (-5)
  <-> inBounds 2 (Rect.mk 700 700) (DOMMatrix.mk 3 0 0 3 (-2800) (-5)).
Proof.
  apply (enforceBounds_identity_iff_inBounds 2 (Rect.mk 700 700)
           (DOMMatrix.mk 3 0 0 3 (-2800) (-5))).
  split; discriminate.
Defined.

(** ** Panning follows the pointer *)

(** While panning, as long as the bounds do not stop it, the canvas follows
    the pointer: after a pointer move the logical point that was grabbed at
    pointer-down (the anchor) is under the pointer again. *)
Theorem pan_keeps_anchor_under_pointer
    (dpr : Q) (rect : Rect.t) (s : State) (ev : MouseEvent.t)
    (anchor pt : Point.t) :
  uniform (transform s) ->
  draggingObject s = None ->
  dragStart s = Some anchor ->
  getTransformedPoint dpr (transform s)
    (MouseEvent.offsetX ev) (MouseEvent.offsetY ev) = Some pt ->
  inBounds dpr rect
    (Ctx.translate (transform s) (Point.x pt - Point.x anchor)
                                 (Point.y pt - Point.y anchor)) ->
  exists (s' : State) (L : Point.t),
    mousemove dpr rect s ev = Some (s', [Redraw]) /\
    getTransformedPoint dpr (transform s')
      (MouseEvent.offsetX ev) (MouseEvent.offsetY ev) = Some L /\
    Point.equiv L anchor.
Proof.
  intros (Hb & Hc & Had) Hdrag Hstart Hpt Hin.
  pose proof (getTransformedPoint_inv _ _ _ _ _ Hpt) as (Hn & Hx & Hy).
  do 2 eexists. split; [|split].
  - unfold mousemove. rewrite Hpt, Hdrag, Hstart.
    rewrite (enforceBounds_fix _ _ _ Hin). reflexivity.
  - cbn [transform]. apply getTransformedPoint_some. exact Hn.
  - unfold Point.equiv, Ctx.translate. simpl.
    rewrite Hb, Hc, <- Had, Hx, Hy. split; field; exact Hn.
Qed.

Lemma pan_keeps_anchor_under_pointer_witness :
  let rect := Rect.mk 700 700 in
  let T := DOMMatrix.mk 3 0 0 3 (-300) (-300) in
  let anchor := logicalPoint 2 T 200 200 in
  let s := mkState T None (Some anchor) "grabbing" in
  exists (s' : State) (L : Point.t),
    mousemove 2 rect s (MouseEvent.mk 0 230 190) = Some (s', [Redraw]) /\
    getTransformedPoint 2 (transform s') 230 190 = Some L /\
    Point.equiv L anchor.
Proof.
  intros rect T anchor s.
  apply (pan_keeps_anchor_under_pointer 2 rect s (MouseEvent.mk 0 230 190)
           anchor (logicalPoint 2 T 230 190)).
  - repeat split; reflexivity.
  - reflexivity.
  - reflexivity.
  - reflexivity.
  - unfold inBounds. simpl. repeat split; discriminate.
Defined.

(** ** Releasing the button *)

(** A release clears one of the two gesture fields, the dragged drawable
    first.  So one release ends the gesture exactly when at most one field
    was set; with both set it leaves the controller panning, and a second
    release is needed.  The transform is never touched. *)
Theorem mouseup_clears_one_field (s : State) :
  (mode (mouseup s) = Idle <-> draggingObject s = None \/ dragStart s = None)
  /\
  (forall obj anchor,
      draggingObject s = Some obj -> dragStart s = Some anchor ->
      mode (mouseup s) = Panning /\ dragStart (mouseup s) = Some anchor)
  /\
  mode (mouseup (mouseup s)) = Idle /\
  transform (mouseup s) = transform s.
Proof.
  destruct s as [T [obj|] [anchor|] cur]; unfold mouseup, mode; cbn.
  - split; [split; [discriminate | intros [H|H]; discriminate]|].
    split; [intros ? ? [= <-] [= <-]; auto|]. auto.
  - split; [split; auto|]. split; [discriminate|]. auto.
  - split; [split; auto|]. split; [discriminate|]. auto.
  - split; [split; auto|]. split; [discriminate|]. auto.
Qed.

Lemma mouseup_clears_one_field_witness :
  let s := mkState DOMMatrix.identity (Some box) (Some (Point.mk 1 2))
                   "grabbing" in
  mode (mouseup s) = Panning /\ dragStart (mouseup s) = Some (Point.mk 1 2).
Proof.
  intros s.
  apply (proj1 (proj2 (mouseup_clears_one_field s)) box (Point.mk 1 2));
    reflexivity.
Defined.

(** ** The grid in detail *)

Lemma nth_steps (cellSize : Q) (n : nat) :
  forall (x : Q) (k : nat),
    (k < n)%nat -> nth k (steps n x cellSize) 0 == x + Qnat k * cellSize.
Proof.
  induction n as [|n IH]; intros x k Hk; [lia|].
  destruct k as [|k]; simpl.
  - change (Qnat 0) with 0. ring.
  - rewrite IH by lia. rewrite Qnat_S. ring.
Qed.

Lemma Qceiling_unique (q : Q) (z : Z) :
  inject_Z (z - 1) < q -> q <= inject_Z z -> Qceiling q = z.
Proof.
  intros Hlo Hup.
  pose proof (Qle_ceiling q) as Hc1.
  pose proof (Qceiling_lt q) as Hc2.
  assert (H1 : inject_Z (z - 1) < inject_Z (Qceiling q)) by lra.
  assert (H2 : inject_Z (Qceiling q - 1) < inject_Z z) by lra.
  rewrite <- Zlt_Qlt in H1, H2. lia.
Qed.

(** The ceiling of a quotient of integers, in integer arithmetic. *)
Lemma Qceiling_div_Z (W c : Z) :
  (0 < c)%Z -> Qceiling (inject_Z W / inject_Z c) = ((W + c - 1) / c)%Z.
Proof.
  intros Hc.
  assert (Hcq : 0 < inject_Z c)
    by (change 0 with (inject_Z 0); rewrite <- Zlt_Qlt; exact Hc).
  pose proof (Z.div_mod (W + c - 1) c ltac:(lia)) as Hdm.
  pose proof (Z.mod_pos_bound (W + c - 1) c Hc) as Hr.
  set (q := ((W + c - 1) / c)%Z) in *.
  apply Qceiling_unique.
  - apply Qlt_shift_div_l; [exact Hcq|].
    rewrite <- inject_Z_mult, <- Zlt_Qlt. nia.
  - apply Qle_shift_div_r; [exact Hcq|].
    rewrite <- inject_Z_mult, <- Zle_Qle. nia.
Qed.

Lemma lineCount_Z (bound cellSize : Q) (W c : Z) :
  (0 < c)%Z -> bound == inject_Z W -> cellSize == inject_Z c ->
  lineCount bound cellSize = Z.to_nat ((W + c - 1) / c).
Proof.
  intros Hc HW Hcell. unfold lineCount.
  rewrite HW, Hcell, Qceiling_div_Z by exact Hc. reflexivity.
Qed.

(** With a whole positive cell size [c] and whole density-scaled extents [W]
    and [H], small enough for the source's doubles to add them exactly, the
    grid is the vertical segments at x = 0, c, 2 c, ... followed by the
    horizontal segments at the same values of y: as many of each kind as
    multiples of [c] lie below the extent, (W + c - 1) / c and
    (H + c - 1) / c in integer division. *)
Theorem grid_lines_at_multiples_of_cell
    (dpr : Q) (gridOptions : option GridOptions.t) (rect : Rect.t)
    (fuel : nat) (c W H : Z) :
  (0 < c)%Z ->
  cellSizeOf gridOptions == inject_Z c ->
  scaledWidth dpr rect == inject_Z W ->
  scaledHeight dpr rect == inject_Z H ->
  (W + c <= 2 ^ 53)%Z ->
  (H + c <= 2 ^ 53)%Z ->
  (gridFuel dpr gridOptions rect <= fuel)%nat ->
  exists xs ys : list Q,
    drawGrid dpr gridOptions fuel rect
    = Some (map (verticalLine dpr gridOptions rect) xs
            ++ map (horizontalLine dpr gridOptions rect) ys) /\
    List.length xs = Z.to_nat ((W + c - 1) / c) /\
    List.length ys = Z.to_nat ((H + c - 1) / c) /\
    (forall k, (k < List.length xs)%nat ->
               nth k xs 0 == inject_Z (Z.of_nat k * c) /\
               (Z.of_nat k * c < W)%Z) /\
    (forall k, (k < List.length ys)%nat ->
               nth k ys 0 == inject_Z (Z.of_nat k * c) /\
               (Z.of_nat k * c < H)%Z).
Proof.
  intros Hc Hcell HW HH _ _ Hf.
  assert (Hpos : 0 < cellSizeOf gridOptions).
  { rewrite Hcell. change 0 with (inject_Z 0). rewrite <- Zlt_Qlt. exact Hc. }
  assert (Hbelow : forall (E : Z) (k : nat),
             (k < Z.to_nat ((E + c - 1) / c))%nat -> (Z.of_nat k * c < E)%Z).
  { intros E k Hk.
    pose proof (Z.div_mod (E + c - 1) c ltac:(lia)) as Hdm.
    pose proof (Z.mod_pos_bound (E + c - 1) c Hc) as Hr.
    set (q := ((E + c - 1) / c)%Z) in *.
    assert (Z.of_nat k + 1 <= q)%Z by lia. nia. }
  exists (steps (lineCount (scaledWidth dpr rect) (cellSizeOf gridOptions))
                0 (cellSizeOf gridOptions)),
         (steps (lineCount (scaledHeight dpr rect) (cellSizeOf gridOptions))
                0 (cellSizeOf gridOptions)).
  split; [apply drawGrid_complete; assumption|].
  rewrite !length_steps.
  rewrite (lineCount_Z _ _ W c Hc HW Hcell), (lineCount_Z _ _ H c Hc HH Hcell).
  split; [reflexivity|]. split; [reflexivity|].
  split; intros k Hk; (split; [|apply Hbelow; exact Hk]);
    rewrite nth_steps by exact Hk;
    rewrite Hcell, inject_Z_mult; unfold Qnat; ring.
Qed.

Lemma grid_lines_at_multiples_of_cell_witness :
  exists xs ys : list Q,
    drawGrid 2 (Some (GridOptions.mk true (Some 300) None None)) 6
             (Rect.mk 700 400)
    = Some (map (verticalLine 2 (Some (GridOptions.mk true (Some 300) None None))
                              (Rect.mk 700 400)) xs
            ++ map (horizontalLine 2
                      (Some (GridOptions.mk true (Some 300) None None))
                      (Rect.mk 700 400)) ys) /\
    List.length xs = Z.to_nat ((1400 + 300 - 1) / 300) /\
    List.length ys = Z.to_nat ((800 + 300 - 1) / 300) /\
    (forall k, (k < List.length xs)%nat ->
               nth k xs 0 == inject_Z (Z.of_nat k * 300) /\
               (Z.of_nat k * 300 < 1400)%Z) /\
    (forall k, (k < List.length ys)%nat ->
               nth k ys 0 == inject_Z (Z.of_nat k * 300) /\
               (Z.of_nat k * 300 < 800)%Z).
Proof.
  apply (grid_lines_at_multiples_of_cell 2
           (Some (GridOptions.mk true (Some 300) None None))
           (Rect.mk 700 400) 6 300 1400 800).
  - reflexivity.
  - reflexivity.
  - reflexivity.
  - reflexivity.
  - discriminate.
  - discriminate.
  - apply Nat.le_refl.
Defined.

(** ** The demo host against the component *)

Lemma app_drawablesFrom_shape (arcs : list App.Arc) :
  forall first : nat,
    Forall (fun o => hasDraw o = true /\ Drawable.touches o = None /\
                     Drawable.move o = None)
           (App.drawablesFrom first arcs).
Proof.
  induction arcs as [|arc arcs IH]; intros first; simpl.
  - constructor.
  - constructor; [repeat split | apply IH].
Qed.

Lemma app_drawablesFrom_length (arcs : list App.Arc) :
  forall first : nat,
    List.length (App.drawablesFrom first arcs) = List.length arcs.
Proof.
  induction arcs as [|arc arcs IH]; intros first; simpl;
    [|rewrite IH]; reflexivity.
Qed.

Lemma app_arcs_length (events : list App.Event) :
  forall arcs : list App.Arc,
    List.length (fold_left App.step events arcs)
    = (List.length arcs + List.length events)%nat.
Proof.
  induction events as [|ev events IH]; intros arcs; simpl.
  - lia.
  - rewrite IH. destruct ev; simpl; rewrite length_app; simpl; lia.
Qed.

(** Whatever the timers and right clicks of the demo have added, rendering
    its drawables never throws: the pass clears, strokes the default grid
    (cell size 40) and calls [draw] on every drawable, one per event plus
    the initial one, in the order they were added. *)
Theorem app_render_never_throws
    (dpr : Q) (rect : Rect.t) (width height : Z) (fuel : nat)
    (events : list App.Event) :
  (gridFuel dpr App.gridOptions rect <= fuel)%nat ->
  let objs := App.drawables (fold_left App.step events App.initial) in
  draw dpr App.gridOptions (Some objs) fuel width height rect
  = Some (clearEvent width height
            :: gridLines dpr App.gridOptions rect ++ map DrawCall objs,
          Returned) /\
  List.length objs = S (List.length events).
Proof.
  intros Hf objs. split.
  - rewrite draw_unfold.
    rewrite (gridPhase_returns dpr App.gridOptions rect fuel);
      [|right; reflexivity | exact Hf].
    rewrite drawObjects_all; [reflexivity|].
    eapply Forall_impl; [|apply app_drawablesFrom_shape].
    intros o H. apply H.
  - unfold objs, App.drawables.
    rewrite app_drawablesFrom_length, app_arcs_length. reflexivity.
Qed.

Lemma app_render_never_throws_witness :
  let events := [App.TimerFired; App.ContextMenu (Point.mk 30 40)] in
  let objs := App.drawables (fold_left App.step events App.initial) in
  draw 2 App.gridOptions (Some objs) 36 1400 1400 (Rect.mk 700 700)
  = Some (clearEvent 1400 1400
            :: gridLines 2 App.gridOptions (Rect.mk 700 700)
               ++ map DrawCall objs,
          Returned) /\
  List.length objs = 3%nat.
Proof.
  intros events.
  apply (app_render_never_throws 2 (Rect.mk 700 700) 1400 1400 36 events).
  apply Nat.le_refl.
Defined.

Lemma app_nothing_is_hit (arcs : list App.Arc) (pt : Point.t) :
  getObjectAt (Some (App.drawables arcs)) pt = None.
Proof.
  unfold getObjectAt. apply find_none_iff.
  eapply Forall_impl; [|apply app_drawablesFrom_shape].
  intros o (_ & Ht & _). unfold touchesAt. rewrite Ht. reflexivity.
Qed.

(** No drawable of the demo can be hit or dragged: a primary press on its
    canvas always starts a pan at the logical point under the pointer, and a
    right click reports no drawable and makes the demo add a disc of radius
    25 whose centre is drawn on the bitmap pixel under the pointer. *)
Theorem app_press_pans_and_right_click_adds_disc
    (dpr : Q) (arcs : list App.Arc) (s : State) (x y clientX clientY : Q)
    (pt : Point.t) :
  uniform (transform s) ->
  getTransformedPoint dpr (transform s) x y = Some pt ->
  mousedown dpr (Some (App.drawables arcs)) s (MouseEvent.mk 0 x y)
  = Some (mkState (transform s) (draggingObject s) (Some pt) "grabbing", [])
  /\
  contextmenu dpr (Some (App.drawables arcs)) (Some hostFunction) s
              (ContextMenuEvent.mk x y clientX clientY)
  = Some [PreventDefault; OnContextMenu pt None clientX clientY]
  /\
  exists disc : App.Arc,
    App.step arcs (App.ContextMenu pt) = arcs ++ [disc] /\
    App.radius disc = 25 /\
    Point.equiv (applyTransform (transform s)
                                (Point.mk (App.cx disc) (App.cy disc)))
                (Point.mk (x * DEFAULT_SCALING dpr) (y * DEFAULT_SCALING dpr)).
Proof.
  intros (Hb & Hc & Had) Hpt.
  pose proof (getTransformedPoint_inv _ _ _ _ _ Hpt) as (Hn & Hx & Hy).
  split; [|split].
  - unfold mousedown.
    cbn [MouseEvent.button MouseEvent.offsetX MouseEvent.offsetY Z.eqb negb].
    rewrite Hpt, app_nothing_is_hit. reflexivity.
  - unfold contextmenu.
    cbn [ContextMenuEvent.offsetX ContextMenuEvent.offsetY
         ContextMenuEvent.clientX ContextMenuEvent.clientY].
    rewrite Hpt, app_nothing_is_hit. reflexivity.
  - eexists. split; [reflexivity|]. split; [reflexivity|].
    unfold applyTransform, Point.equiv. simpl.
    rewrite Hb, Hc, <- Had, Hx, Hy. split; field; exact Hn.
Qed.

Lemma app_press_pans_and_right_click_adds_disc_witness :
  let s := mkState (DOMMatrix.mk 3 0 0 3 (-120) (-60)) None None "" in
  let pt := logicalPoint 2 (transform s) 200 200 in
  mousedown 2 (Some (App.drawables App.initial)) s (MouseEvent.mk 0 200 200)
  = Some (mkState (transform s) (draggingObject s) (Some pt) "grabbing", [])
  /\
  contextmenu 2 (Some (App.drawables App.initial)) (Some hostFunction) s
              (ContextMenuEvent.mk 200 200 640 480)
  = Some [PreventDefault; OnContextMenu pt None 640 480]
  /\
  exists disc : App.Arc,
    App.step App.initial (App.ContextMenu pt) = App.initial ++ [disc] /\
    App.radius disc = 25 /\
    Point.equiv (applyTransform (transform s)
                                (Point.mk (App.cx disc) (App.cy disc)))
                (Point.mk (200 * DEFAULT_SCALING 2) (200 * DEFAULT_SCALING 2)).
Proof.
  intros s pt.
  apply (app_press_pans_and_right_click_adds_disc 2 App.initial s 200 200
           640 480 pt).
  - repeat split; reflexivity.
  - reflexivity.
Defined.

(** ** More on the wheel, the mapper and the pan step *)

(** In either direction, a wheel event that is handled keeps the point
    under the pointer where it is, unless the bounds have to correct the
    zoomed transform. *)
Theorem wheel_keeps_pointer_fixed_unless_clamped
    (dpr : Q) (maxZoom : option Q) (rect : Rect.t) (s : State)
    (ev : WheelEvent.t) (L : Point.t) :
  uniform (transform s) ->
  getTransformedPoint dpr (transform s)
    (WheelEvent.offsetX ev) (WheelEvent.offsetY ev) = Some L ->
  let zoom := if Qltb (WheelEvent.deltaY ev) 0 then 1.02 else 0.98 in
  (WheelEvent.deltaY ev < 0 ->
   DOMMatrix.a (transform s) <= maxScaleValue maxZoom) ->
  inBounds dpr rect (zoomAbout (transform s) L zoom) ->
  exists (s' : State) (L' : Point.t),
    mousewheel dpr maxZoom rect s ev = Some (s', [Redraw]) /\
    transform s' = zoomAbout (transform s) L zoom /\
    getTransformedPoint dpr (transform s')
      (WheelEvent.offsetX ev) (WheelEvent.offsetY ev) = Some L' /\
    Point.equiv L' L.
Proof.
  intros Hu HL zoom Hgate Hin.
  assert (Hz : ~ zoom == 0)
    by (unfold zoom; destruct (Qltb _ 0); discriminate).
  destruct (zoomAbout_pivot dpr (transform s) (WheelEvent.offsetX ev)
              (WheelEvent.offsetY ev) zoom L Hu Hz HL) as (L' & HL' & Heq).
  eexists. exists L'. split.
  - unfold mousewheel.
    assert (Hgo : Qltb (WheelEvent.deltaY ev) 0
                  && Qltb (maxScaleValue maxZoom) (DOMMatrix.a (transform s))
                  = false).
    { destruct (Qltb (WheelEvent.deltaY ev) 0) eqn:Hd; [|reflexivity].
      apply Qltb_true_inv in Hd. cbn [andb].
      apply Qltb_false, Hgate, Hd. }
    rewrite Hgo, HL. fold zoom.
    rewrite (enforceBounds_fix _ _ _ Hin). reflexivity.
  - cbn [transform]. split; [reflexivity|]. split; assumption.
Qed.

Lemma wheel_keeps_pointer_fixed_unless_clamped_witness :
  let rect := Rect.mk 700 700 in
  let s := mkState (DOMMatrix.mk 3 0 0 3 (-1400) (-1400)) None None "" in
  let ev := WheelEvent.mk 1 350 350 in
  let L := logicalPoint 2 (transform s) 350 350 in
  exists (s' : State) (L' : Point.t),
    mousewheel 2 None rect s ev = Some (s', [Redraw]) /\
    transform s' = zoomAbout (transform s) L 0.98 /\
    getTransformedPoint 2 (transform s') 350 350 = Some L' /\
    Point.equiv L' L.
Proof.
  intros rect s ev L.
  apply (wheel_keeps_pointer_fixed_unless_clamped 2 None rect s ev L).
  - repeat split; reflexivity.
  - reflexivity.
  - discriminate.
  - unfold inBounds. simpl. repeat split; discriminate.
Defined.

(** The mapper is affine with slope [pixelDensityFactor / scale]: moving
    the pointer by (dx, dy) moves the logical point by (dx, dy) times the
    density factor over the horizontal scale, whatever the translation. *)
Theorem mapper_scales_displacements
    (dpr : Q) (T : DOMMatrix.t) (x1 y1 x2 y2 : Q) (L1 L2 : Point.t) :
  getTransformedPoint dpr T x1 y1 = Some L1 ->
  getTransformedPoint dpr T x2 y2 = Some L2 ->
  Point.x L2 - Point.x L1
  == (x2 - x1) * DEFAULT_SCALING dpr / DOMMatrix.a T /\
  Point.y L2 - Point.y L1
  == (y2 - y1) * DEFAULT_SCALING dpr / DOMMatrix.a T.
Proof.
  intros H1 H2.
  apply getTransformedPoint_inv in H1. destruct H1 as (Hn & Hx1 & Hy1).
  apply getTransformedPoint_inv in H2. destruct H2 as (_ & Hx2 & Hy2).
  rewrite Hx1, Hy1, Hx2, Hy2. split; field; exact Hn.
Qed.

Lemma mapper_scales_displacements_witness :
  let T := DOMMatrix.mk 4 0 0 4 (-120) (-60) in
  Point.x (logicalPoint 2 T 110 70) - Point.x (logicalPoint 2 T 100 40)
  == (110 - 100) * DEFAULT_SCALING 2 / DOMMatrix.a T /\
  Point.y (logicalPoint 2 T 110 70) - Point.y (logicalPoint 2 T 100 40)
  == (70 - 40) * DEFAULT_SCALING 2 / DOMMatrix.a T.
Proof.
  intros T.
  apply (mapper_scales_displacements 2 T 100 40 110 70); reflexivity.
Defined.

Lemma clampTranslation_comp (t t' bound bound' : Q) :
  t == t' -> bound == bound' ->
  clampTranslation t bound == clampTranslation t' bound'.
Proof.
  intros Ht Hb. unfold clampTranslation.
  destruct (Qlt_le_dec 0 t), (Qlt_le_dec 0 t'); try lra;
    match goal with
    | |- (if Qlt_le_dec ?u ?v then _ else _)
         == (if Qlt_le_dec ?u' ?v' then _ else _) =>
        destruct (Qlt_le_dec u v), (Qlt_le_dec u' v'); lra
    end.
Qed.

(** A pan step does not accumulate: the translation it stores is the clamp
    of [offset * pixelDensityFactor - scale * anchor], which depends on where
    the pointer is now and where the gesture began, not on the translation
    before the move nor on the moves in between. *)
Theorem pan_step_closed_form
    (dpr : Q) (rect : Rect.t) (s : State) (ev : MouseEvent.t)
    (anchor : Point.t) :
  uniform (transform s) ->
  1 <= DOMMatrix.a (transform s) ->
  draggingObject s = None ->
  dragStart s = Some anchor ->
  exists s' : State,
    mousemove dpr rect s ev = Some (s', [Redraw]) /\
    DOMMatrix.a (transform s') = DOMMatrix.a (transform s) /\
    DOMMatrix.e (transform s')
    == clampTranslation
         (MouseEvent.offsetX ev * DEFAULT_SCALING dpr
          - DOMMatrix.a (transform s) * Point.x anchor)
         (maxTranslation dpr (Rect.width rect) (DOMMatrix.a (transform s))) /\
    DOMMatrix.f (transform s')
    == clampTranslation
         (MouseEvent.offsetY ev * DEFAULT_SCALING dpr
          - DOMMatrix.a (transform s) * Point.y anchor)
         (maxTranslation dpr (Rect.height rect) (DOMMatrix.a (transform s))).
Proof.
  intros (Hb & Hc & Had) Ha Hdrag Hstart.
  assert (Hn : ~ DOMMatrix.a (transform s) == 0) by lra.
  assert (Hd : 1 <= DOMMatrix.d (transform s)) by lra.
  eexists. split.
  - unfold mousemove.
    rewrite (getTransformedPoint_some _ _ _ _ Hn), Hdrag, Hstart.
    reflexivity.
  - cbn [transform]. rewrite enforceBounds_unfold.
    unfold Ctx.translate.
    cbn [DOMMatrix.a DOMMatrix.b DOMMatrix.c DOMMatrix.d DOMMatrix.e
         DOMMatrix.f Point.x Point.y].
    rewrite !clampScale_fix by assumption.
    split; [reflexivity|]. split.
    + apply clampTranslation_comp; [|reflexivity].
      rewrite Hc. field. exact Hn.
    + apply clampTranslation_comp.
      * rewrite Hb, <- Had. field. exact Hn.
      * unfold maxTranslation. rewrite Had. reflexivity.
Qed.

Lemma pan_step_closed_form_witness :
  let rect := Rect.mk 700 700 in
  let s := mkState (DOMMatrix.mk 3 0 0 3 (-300) (-300)) None
                   (Some (Point.mk 200 100)) "grabbing" in
  let ev := MouseEvent.mk 0 230 190 in
  exists s' : State,
    mousemove 2 rect s ev = Some (s', [Redraw]) /\
    DOMMatrix.a (transform s') = DOMMatrix.a (transform s) /\
    DOMMatrix.e (transform s')
    == clampTranslation (230 * DEFAULT_SCALING 2 - 3 * 200)
                        (maxTranslation 2 700 3) /\
    DOMMatrix.f (transform s')
    == clampTranslation (190 * DEFAULT_SCALING 2 - 3 * 100)
                        (maxTranslation 2 700 3).
Proof.
  intros rect s ev.
  apply (pan_step_closed_form 2 rect s ev (Point.mk 200 100)).
  - repeat split; reflexivity.
  - discriminate.
  - reflexivity.
  - reflexivity.
Defined.

(** ** Dragging inside the content *)

(** While a drawable is dragged with the pointer on the canvas, its [move]
    is called with a point of the content rectangle, never with one outside
    it, and nothing else changes. *)
Theorem dragged_drawable_moves_within_content
    (dpr : Q) (drawables : option (list Drawable.t)) (maxZoom : option Q)
    (rect : Rect.t) (s : State) (ev : MouseEvent.t) (obj : Drawable.t) :
  Rect.native rect ->
  reachable dpr drawables maxZoom rect s ->
  draggingObject s = Some obj ->
  onCanvas rect (MouseEvent.offsetX ev) (MouseEvent.offsetY ev) ->
  exists pt : Point.t,
    mousemove dpr rect s ev = Some (s, [MoveCall obj pt; Redraw]) /\
    0 <= Point.x pt <= scaledWidth dpr rect /\
    0 <= Point.y pt <= scaledHeight dpr rect.
Proof.
  intros Hrect Hr Hdrag Hon.
  destruct (reachable_invariant _ _ _ _ _ Hr) as (Hu & Ha & Hobj).
  pose proof (reachable_inBounds dpr drawables maxZoom rect Hrect s Hr) as Hb.
  assert (Hn : ~ DOMMatrix.a (transform s) == 0) by lra.
  exists (logicalPoint dpr (transform s)
            (MouseEvent.offsetX ev) (MouseEvent.offsetY ev)).
  split.
  - unfold mousemove.
    rewrite (getTransformedPoint_some _ _ _ _ Hn), Hdrag, (Hobj obj Hdrag).
    reflexivity.
  - apply inBounds_pointer_in_content; assumption.
Qed.

Lemma dragged_drawable_moves_within_content_witness :
  let rect := Rect.mk 700 700 in
  let s := mkState (transform (mounted 2 rect)) (Some box) None "grabbing" in
  exists pt : Point.t,
    mousemove 2 rect s (MouseEvent.mk 0 700 350)
    = Some (s, [MoveCall box pt; Redraw]) /\
    0 <= Point.x pt <= scaledWidth 2 rect /\
    0 <= Point.y pt <= scaledHeight 2 rect.
Proof.
  intros rect s.
  apply (dragged_drawable_moves_within_content 2 (Some [box]) None rect s
           (MouseEvent.mk 0 700 350) box).
  - split; discriminate.
  - apply (reachable_step 2 (Some [box]) None rect (mounted 2 rect) s
             (OnMouseDown (MouseEvent.mk 0 5 5)) []).
    + apply reachable_mounted.
    + reflexivity.
  - reflexivity.
  - repeat split; discriminate.
Defined.

(** ** The bounds enforcer as a clamp *)

Lemma clampScale_max (s : Q) : clampScale s == Qmax s 1.
Proof.
  unfold clampScale. destruct (Qlt_le_dec s 1) as [H|H].
  - symmetry. apply Q.max_r. lra.
  - symmetry. apply Q.max_l. exact H.
Qed.

Lemma clampTranslation_max_min (t bound : Q) :
  bound <= 0 -> clampTranslation t bound == Qmax bound (Qmin t 0).
Proof.
  intros Hb. unfold clampTranslation.
  destruct (Qlt_le_dec 0 t) as [H1|H1].
  - rewrite (Q.min_r t 0) by lra.
    destruct (Qlt_le_dec 0 bound) as [H2|H2]; [lra|].
    symmetry. apply Q.max_r. exact Hb.
  - rewrite (Q.min_l t 0) by exact H1.
    destruct (Qlt_le_dec t bound) as [H2|H2].
    + symmetry. apply Q.max_l. lra.
    + symmetry. apply Q.max_r. exact H2.
Qed.

(** The chain of [if]s in [enforceBounds] is the usual clamp: each scale
    becomes [max(scale, 1)], each translation the nearest value of the
    interval from the most negative allowed translation to 0, and the skews
    are passed through. *)
Theorem enforceBounds_is_clamp
    (dpr : Q) (rect : Rect.t) (T : DOMMatrix.t) :
  Rect.native rect ->
  let T' := enforceBounds dpr rect T in
  DOMMatrix.a T' == Qmax (DOMMatrix.a T) 1 /\
  DOMMatrix.d T' == Qmax (DOMMatrix.d T) 1 /\
  DOMMatrix.e T'
  == Qmax (maxTranslation dpr (Rect.width rect) (DOMMatrix.a T'))
          (Qmin (DOMMatrix.e T) 0) /\
  DOMMatrix.f T'
  == Qmax (maxTranslation dpr (Rect.height rect) (DOMMatrix.d T'))
          (Qmin (DOMMatrix.f T) 0) /\
  DOMMatrix.b T' = DOMMatrix.b T /\ DOMMatrix.c T' = DOMMatrix.c T.
Proof.
  intros [Hw Hh] T'. subst T'. rewrite enforceBounds_unfold. simpl.
  split; [apply clampScale_max|]. split; [apply clampScale_max|].
  split; [|split; [|split; reflexivity]];
    apply clampTranslation_max_min, maxTranslation_nonpos;
    auto using clampScale_ge_1.
Qed.

Lemma enforceBounds_is_clamp_witness :
  let T := DOMMatrix.mk 3 0 0 (1#2) (-9000) 40 in
  let T' := enforceBounds 2 (Rect.mk 700 700) T in
  DOMMatrix.a T' == Qmax (DOMMatrix.a T) 1 /\
  DOMMatrix.d T' == Qmax (DOMMatrix.d T) 1 /\
  DOMMatrix.e T'
  == Qmax (maxTranslation 2 700 (DOMMatrix.a T')) (Qmin (DOMMatrix.e T) 0) /\
  DOMMatrix.f T'
  == Qmax (maxTranslation 2 700 (DOMMatrix.d T')) (Qmin (DOMMatrix.f T) 0) /\
  DOMMatrix.b T' = DOMMatrix.b T /\ DOMMatrix.c T' = DOMMatrix.c T.
Proof.
  intros T.
  apply (enforceBounds_is_clamp 2 (Rect.mk 700 700) T).
  split; discriminate.
Defined.
